(** * ai-sdk-dynamic-tools: a shallow embedding of [dynamic-tools.ts] and
      [compose.ts], and the properties of the refresh protocol.

    The development follows the two source files.

    - [JsObject]: the part of ordinary JavaScript objects the code relies
      on: own enumerable string-keyed data properties, their enumeration
      order ([Object.keys]), [delete], assignment, [Object.assign] and object
      spread.
    - [dynamicTools]: the closure state ([tools], [pendingRefreshMessage]),
      [onStepFinish] and [prepareStep].
    - [composeStepHandlers]: the sequential composition of step handlers.

    Functions supplied by the caller ([shouldRefresh], [refreshTools],
    [onRefresh], a [refreshMessage] function, composed handlers) are
    arbitrary: they act on a state of the caller's own and either return or
    throw.  [await] on their result is a sequential call: the code runs on
    one thread and the generation loop awaits [onStepFinish] before it
    goes on.  The caller's functions are handed values; a function that
    writes to the registry or to the name array it receives is outside
    this model.  Tool values are ordinary objects with writable data
    properties that inherit from [Object.prototype], as [tool()] returns
    them, so the one inherited accessor an assignment on the registry
    can meet is [__proto__]. *)

From Stdlib Require Import String Ascii NArith Lia Sorted.
From stdpp Require Import base option list strings.

Local Open Scope string_scope.
Local Open Scope list_scope.

(** ** Ordinary objects as ordered property lists *)

Module JsObject.

(** The own properties of an object, oldest first: the order in which the
    properties were created.  A well-formed object has no name twice. *)
Definition t (V : Type) : Type := list (string * V).

Definition wf {V} (o : t V) : Prop := NoDup (o.*1).

(** *** Array indices

    A property name is an array index when it is the canonical decimal
    spelling of an integer between 0 and 2^32 - 2: digits only, and no
    leading zero except for ["0"] itself. *)

Definition digit (c : ascii) : option N :=
  let n := N_of_ascii c in
  if ((48 <=? n) && (n <=? 57))%N then Some (n - 48)%N else None.

Fixpoint digits (acc : N) (s : string) : option N :=
  match s with
  | EmptyString => Some acc
  | String c s' =>
      match digit c with
      | Some d => digits (acc * 10 + d) s'
      | None => None
      end
  end.

Definition max_array_index : N := 4294967294.

Definition array_index (s : string) : option N :=
  match s with
  | EmptyString => None
  | String "0" EmptyString => Some 0%N
  | String "0" _ => None
  | _ =>
      match digits 0 s with
      | Some n => if (n <=? max_array_index)%N then Some n else None
      | None => None
      end
  end.

Definition is_array_index (s : string) : bool :=
  match array_index s with Some _ => true | None => false end.

Definition index_value (s : string) : N := default 0%N (array_index s).

Definition index_le (a b : string) : Prop :=
  (index_value a <= index_value b)%N.

(** Array-index names in ascending numeric order (insertion sort). *)
Fixpoint insert_index (k : string) (l : list string) : list string :=
  match l with
  | [] => [k]
  | k' :: l' =>
      if (index_value k <=? index_value k')%N then k :: l
      else k' :: insert_index k l'
  end.

Fixpoint sort_indices (l : list string) : list string :=
  match l with
  | [] => []
  | k :: l' => insert_index k (sort_indices l')
  end.

(** *** [[OwnPropertyKeys]] and [Object.keys]

    Array indices first, in ascending numeric order, then every other
    name in the order of property creation.  All properties of the
    objects at hand are enumerable, so [Object.keys] is this list. *)
Definition order_keys (names : list string) : list string :=
  sort_indices (filter (fun k => is_array_index k = true) names)
  ++ filter (fun k => is_array_index k = false) names.

Definition ownKeys {V} (o : t V) : list string := order_keys (o.*1).

Definition keys {V} (o : t V) : list string := ownKeys o.

(** [o[k]]: the value of the own property [k], if there is one. *)
Fixpoint get {V} (k : string) (o : t V) : option V :=
  match o with
  | [] => None
  | (k', v) :: o' => if String.eqb k k' then Some v else get k o'
  end.

(** [delete o[k]] *)
Definition delete {V} (k : string) (o : t V) : t V :=
  filter (fun p => p.1 <> k) o.

(** [CreateDataProperty(o, k, v)], what an object literal and object
    spread do: an existing property keeps its place, a new one comes
    last. *)
Fixpoint define {V} (k : string) (v : V) (o : t V) : t V :=
  match o with
  | [] => [(k, v)]
  | (k', v') :: o' =>
      if String.eqb k k' then (k, v) :: o' else (k', v') :: define k v o'
  end.

Definition has {V} (k : string) (o : t V) : bool :=
  match get k o with Some _ => true | None => false end.

(** [o[k] = v], the [[Set]] that an assignment and [Object.assign] do,
    on an object that inherits from [Object.prototype]: an own property
    is written; a name the object does not have becomes a new own
    property, except [__proto__], which is found as an accessor on
    [Object.prototype]: its setter runs (it changes the prototype of
    [o]) and no own property is created. *)
Definition set {V} (k : string) (v : V) (o : t V) : t V :=
  if String.eqb k "__proto__" && negb (has k o) then o else define k v o.

(** [Object.assign(target, source)] for two different objects: every own
    enumerable property of [source], in [ownKeys] order, is read and
    assigned on [target]. *)
Definition assign {V} (target source : t V) : t V :=
  foldl (fun tgt k =>
           match get k source with
           | Some v => set k v tgt
           | None => tgt
           end)
        target (ownKeys source).

(** [{ ...source }]: a new object on which every own enumerable property
    of [source], in [ownKeys] order, is defined. *)
Definition spread {V} (source : t V) : t V :=
  foldl (fun tgt k =>
           match get k source with
           | Some v => define k v tgt
           | None => tgt
           end)
        [] (ownKeys source).

End JsObject.

(** ** Effects: a state and exception monad

    A computation runs on a state, may change it, and either returns a
    value or throws.  What it did to the state before throwing stays
    done.  A rejected promise that is awaited is a throw. *)

Inductive Outcome (Err A : Type) : Type :=
  | Returned (a : A)
  | Thrown (e : Err).
Arguments Returned {Err A} a.
Arguments Thrown {Err A} e.

Definition Eff (Err S A : Type) : Type := S -> Outcome Err A * S.

Definition ret {Err S A} (a : A) : Eff Err S A :=
  fun s => (Returned a, s).

Definition bind {Err S A B} (c : Eff Err S A) (k : A -> Eff Err S B)
  : Eff Err S B :=
  fun s =>
    match c s with
    | (Returned a, s') => k a s'
    | (Thrown e, s') => (Thrown e, s')
    end.

Notation "'let*' x ':=' c 'in' k" := (bind c (fun x => k))
  (at level 10, x name, c at level 100, k at level 200).
Notation "c ';;;' k" := (bind c (fun _ => k))
  (at level 100, k at level 200, right associativity).

(** ** The types of the AI SDK the code touches *)

(** [StepResult]: only [toolCalls], each with a [toolName], is read. *)
Record ToolCall := { toolName : string }.
Record StepResult := { toolCalls : list ToolCall }.

Inductive Role := system | user | assistant | tool_role.
Record ModelMessage := { role : Role; content : string }.

(** The argument of [prepareStep]; the hook reads [messages] only. *)
Record PrepareStepOptions := {
  stepNumber : nat;
  messages : list ModelMessage
}.

(** What [prepareStep] returns when it overrides: new [messages]. *)
Record PrepareStepResult := { override_messages : list ModelMessage }.

(** A string is falsy exactly when it is empty. *)
Definition truthy (s : string) : bool := negb (String.eqb s "").

Section DynamicTools.

Context {Tool World Err : Type}.

#[local] Abbreviation ToolSet := (JsObject.t Tool).

(** A function of the caller: it acts on the caller's state. *)
Definition Callback (A : Type) : Type := Eff Err World A.

(** [refreshMessage?: string | ((toolNames: string[]) => string)] *)
Inductive RefreshMessage :=
  | MessageString (s : string)
  | MessageFunction (f : list string -> Callback string).

(** What the promise of [refreshTools] resolves to is a reference.  The
    caller holds the registry ([result.tools]) and may hand that very
    object back; any other object is given by its properties. *)
Inductive ToolSetRef :=
  | TheRegistry
  | OtherObject (o : ToolSet).

Record DynamicToolsConfig := {
  config_tools : ToolSet;
  refreshTools : Callback ToolSetRef;
  shouldRefresh : StepResult -> Callback bool;
  onRefresh : option (list string -> Callback unit);
  refreshMessage : option RefreshMessage
}.

(** [config.refreshMessage] in a condition: [undefined] and the empty
    string are falsy, a function and any other string are truthy. *)
Definition refreshMessage_truthy (rm : option RefreshMessage) : bool :=
  match rm with
  | None => false
  | Some (MessageString s) => truthy s
  | Some (MessageFunction _) => true
  end.

(** The state one call of [dynamicTools] closes over: the object [tools]
    (line 47), the variable [pendingRefreshMessage] (line 48), and next
    to them the caller's state. *)
Record Closure := {
  tools : ToolSet;
  pendingRefreshMessage : option string;
  world : World
}.

Definition M (A : Type) : Type := Eff Err Closure A.

Definition with_tools (o : ToolSet) (st : Closure) : Closure :=
  {| tools := o;
     pendingRefreshMessage := pendingRefreshMessage st;
     world := world st |}.

Definition with_pending (p : option string) (st : Closure) : Closure :=
  {| tools := tools st; pendingRefreshMessage := p; world := world st |}.

Definition with_world (w : World) (st : Closure) : Closure :=
  {| tools := tools st;
     pendingRefreshMessage := pendingRefreshMessage st;
     world := w |}.

(** Calling a function of the caller from inside the closure. *)
Definition call {A} (f : Callback A) : M A :=
  fun st => let (r, w) := f (world st) in (r, with_world w st).

Definition deref (r : ToolSetRef) (st : Closure) : ToolSet :=
  match r with
  | TheRegistry => tools st
  | OtherObject o => o
  end.

(** Lines 56-58:
    [for (const key of Object.keys(tools)) delete tools[key];] *)
Definition clear_tools : M unit :=
  fun st =>
    (Returned tt,
     foldl (fun s key => with_tools (JsObject.delete key (tools s)) s)
           st (JsObject.keys (tools st))).

(** Line 59: [Object.assign(tools, freshTools)].  The names of
    [freshTools] are listed once; each value is then read from
    [freshTools] and assigned on [tools]. *)
Definition assign_tools (freshTools : ToolSetRef) : M unit :=
  fun st =>
    (Returned tt,
     foldl (fun s key =>
              match JsObject.get key (deref freshTools s) with
              | Some v => with_tools (JsObject.set key v (tools s)) s
              | None => s
              end)
           st (JsObject.ownKeys (deref freshTools st))).

Definition set_pendingRefreshMessage (p : option string) : M unit :=
  fun st => (Returned tt, with_pending p st).

(** Lines 61-69: the names are listed, the observer is told, the
    notification is armed. *)
Definition announce (config : DynamicToolsConfig) : M unit :=
  let* toolNames := (fun st => (Returned (JsObject.keys (tools st)), st)) in
  match onRefresh config with
  | Some f => call (f toolNames)
  | None => ret tt
  end ;;;
  if refreshMessage_truthy (refreshMessage config) then
    match refreshMessage config with
    | Some (MessageFunction f) =>
        let* text := call (f toolNames) in
        set_pendingRefreshMessage (Some text)
    | Some (MessageString s) => set_pendingRefreshMessage (Some s)
    | None => ret tt
    end
  else ret tt.

(** Lines 50-70. *)
Definition onStepFinish (config : DynamicToolsConfig) (step : StepResult)
  : M unit :=
  let* refresh := call (shouldRefresh config step) in
  if negb refresh then ret tt
  else
    let* freshTools := call (refreshTools config) in
    clear_tools ;;;
    assign_tools freshTools ;;;
    announce config.

(** The properties [tools] has once lines 56-59 have run: those
    [Object.assign] puts on the emptied registry, or none when the
    replacement is the registry itself, which line 57 has just
    emptied. *)
Definition replaced (freshTools : ToolSetRef) : ToolSet :=
  match freshTools with
  | TheRegistry => []
  | OtherObject o => JsObject.assign [] o
  end.

Definition wf_ref (freshTools : ToolSetRef) : Prop :=
  match freshTools with
  | TheRegistry => True
  | OtherObject o => JsObject.wf o
  end.

(** Lines 74-86: the function [prepareStep] is when it exists. *)
Definition prepareStep (options : PrepareStepOptions)
  : M (option PrepareStepResult) :=
  fun st =>
    match pendingRefreshMessage st with
    | Some notification =>
        if truthy notification then
          (Returned
             (Some {| override_messages :=
                        messages options
                        ++ [ {| role := user;
                                content :=
                                  "[system: " +:+ notification +:+ "]" |} ] |}),
           with_pending None st)
        else (Returned None, st)
    | None => (Returned None, st)
    end.

(** [DynamicToolsResult].  The field [tools] of the source is the object
    the closure holds: the component [tools] of [Closure]. *)
Record DynamicToolsResult := {
  result_onStepFinish : StepResult -> M unit;
  result_prepareStep : option (PrepareStepOptions -> M (option PrepareStepResult))
}.

(** Lines 44-90.  The closure starts with a copy of [config.tools] and
    nothing pending. *)
Definition initial (config : DynamicToolsConfig) (w : World) : Closure :=
  {| tools := JsObject.spread (config_tools config);
     pendingRefreshMessage := None;
     world := w |}.

Definition dynamicTools (config : DynamicToolsConfig) : DynamicToolsResult :=
  {| result_onStepFinish := onStepFinish config;
     result_prepareStep :=
       if refreshMessage_truthy (refreshMessage config)
       then Some prepareStep
       else None |}.

(** The loop, like the tests, calls the hook when there is one:
    [prepareStep?.(options)] is [undefined] without a hook. *)
Definition call_prepareStep (result : DynamicToolsResult)
    (options : PrepareStepOptions) : M (option PrepareStepResult) :=
  match result_prepareStep result with
  | Some hook => hook options
  | None => ret None
  end.

End DynamicTools.

Arguments RefreshMessage : clear implicits.
Arguments ToolSetRef : clear implicits.
Arguments DynamicToolsConfig : clear implicits.
Arguments Closure : clear implicits.
Arguments DynamicToolsResult : clear implicits.

(** ** [composeStepHandlers] (compose.ts)

    [for (const handler of handlers) await handler(step);] over any state
    the handlers act on. *)
Fixpoint composeStepHandlers {Err S}
    (handlers : list (StepResult -> Eff Err S unit)) (step : StepResult)
  : Eff Err S unit :=
  match handlers with
  | [] => ret tt
  | handler :: rest =>
      handler step ;;; composeStepHandlers rest step
  end.

(** ** Observing calls

    The tests of the repository wrap the caller's functions in [vi.fn]
    and look at the recorded calls.  [spy] is that wrapper: the wrapped
    function does what the original does and the call is appended to a
    log the original cannot see. *)

Inductive Call :=
  | CalledShouldRefresh (step : StepResult)
  | CalledRefreshTools
  | CalledOnRefresh (toolNames : list string)
  | CalledRefreshMessage (toolNames : list string)
  | CalledHandler (i : nat) (step : StepResult).

Section Spies.

Context {Tool World Err : Type}.

Definition spy {A} (c : Call) (f : Eff Err World A)
  : Eff Err (World * list Call) A :=
  fun s => let (r, w) := f s.1 in (r, (w, s.2 ++ [c])).

Definition spy_refreshMessage (rm : RefreshMessage World Err)
  : RefreshMessage (World * list Call) Err :=
  match rm with
  | MessageString s => MessageString s
  | MessageFunction f =>
      MessageFunction
        (fun toolNames => spy (CalledRefreshMessage toolNames) (f toolNames))
  end.

Definition spy_config (config : DynamicToolsConfig Tool World Err)
  : DynamicToolsConfig Tool (World * list Call) Err :=
  {| config_tools := config_tools config;
     refreshTools := spy CalledRefreshTools (refreshTools config);
     shouldRefresh :=
       fun step => spy (CalledShouldRefresh step) (shouldRefresh config step);
     onRefresh :=
       (fun f toolNames => spy (CalledOnRefresh toolNames) (f toolNames))
       <$> onRefresh config;
     refreshMessage := spy_refreshMessage <$> refreshMessage config |}.

(** The closure of a spied configuration: the same registry and pending
    message, the caller's state paired with the log. *)
Definition spied (st : Closure Tool World) (log : list Call)
  : Closure Tool (World * list Call) :=
  {| tools := tools st;
     pendingRefreshMessage := pendingRefreshMessage st;
     world := (world st, log) |}.

Definition spy_handlers (handlers : list (StepResult -> Eff Err World unit))
  : list (StepResult -> Eff Err (World * list Call) unit) :=
  imap (fun i handler step => spy (CalledHandler i step) (handler step))
       handlers.

End Spies.

(** ** Vocabulary of the statements *)

(** The calls [CalledHandler from step], ...,
    [CalledHandler (from + n - 1) step]. *)
Definition handler_calls (from n : nat) (step : StepResult) : list Call :=
  (fun i => CalledHandler i step) <$> seq from n.

(** [AllReturn handlers step s s']: called one after the other on [step],
    each on the state the one before left, the handlers all return, and
    the last leaves [s']. *)
Inductive AllReturn {Err S} (step : StepResult)
  : list (StepResult -> Eff Err S unit) -> S -> S -> Prop :=
  | AllReturn_nil s : AllReturn step [] s s
  | AllReturn_cons handler rest s s1 s2 :
      handler step s = (Returned tt, s1) ->
      AllReturn step rest s1 s2 ->
      AllReturn step (handler :: rest) s s2.

(** ** Configurations of the tests

    The caller's state is the number of [refreshTools] calls so far, as
    in the test with [callCount]; tools are numbers, errors strings. *)

Module Examples.

(** [makeStep]: a step with the given tool calls. *)
Definition makeStep (names : list string) : StepResult :=
  {| toolCalls := (fun n => {| toolName := n |}) <$> names |}.

(** [step.toolCalls.some((tc) => tc.toolName === name)] *)
Definition calls_tool (name : string) (step : StepResult) : bool :=
  existsb (fun tc => String.eqb (toolName tc) name) (toolCalls step).

Definition example_config
    (replacement : nat -> Outcome string (ToolSetRef nat))
    (observer : option (list string -> Outcome string unit))
    (message : option (RefreshMessage nat string))
  : DynamicToolsConfig nat nat string :=
  {| config_tools := [("old", 0)];
     refreshTools := fun callCount => (replacement callCount, S callCount);
     shouldRefresh :=
       fun step w => (Returned (calls_tool "load-skill" step), w);
     onRefresh := (fun f toolNames w => (f toolNames, w)) <$> observer;
     refreshMessage := message |}.

Definition load_skill : StepResult := makeStep ["load-skill"].
Definition other_step : StepResult := makeStep ["some-tool"].

Definition alpha_beta_gamma : ToolSetRef nat :=
  OtherObject [("alpha", 1); ("beta", 2); ("gamma", 3)].

(** [(names) => `Tools refreshed. Now available: ${names.join(", ")}`] *)
Definition now_available (names : list string) : Callback (World := nat) (Err := string) string :=
  ret ("Tools refreshed. Now available: " +:+ String.concat ", " names).

Definition plain_config :=
  example_config (fun _ => Returned alpha_beta_gamma) None None.

Definition observed_config :=
  example_config (fun _ => Returned alpha_beta_gamma)
                 (Some (fun _ => Returned tt)) (Some (MessageFunction now_available)).

Definition static_config :=
  example_config (fun _ => Returned alpha_beta_gamma) None
                 (Some (MessageString "Updated!")).

Definition failing_fetch_config :=
  example_config (fun _ => Thrown "fetch failed") (Some (fun _ => Returned tt))
                 (Some (MessageString "Updated!")).

Definition failing_observer_config :=
  example_config (fun _ => Returned alpha_beta_gamma)
                 (Some (fun _ => Thrown "observer failed"))
                 (Some (MessageString "Updated!")).

(** [refreshTools] of the test of sequential refreshes: another tool set
    on each call. *)
Definition sequential_config :=
  example_config
    (fun callCount =>
       Returned (OtherObject (if Nat.eqb callCount 0 then [("tool-1", 1)]
                              else [("tool-2", 2)])))
    None (Some (MessageFunction now_available)).

(** A replacement with a name that is an array index. *)
Definition numbered_config :=
  example_config (fun _ => Returned (OtherObject [("b", 1); ("1", 2)]))
                 (Some (fun _ => Returned tt)) None.

(** [refreshMessage: ""] and [refreshMessage: () => ""]. *)
Definition empty_string_config :=
  example_config (fun _ => Returned alpha_beta_gamma) None
                 (Some (MessageString "")).

Definition empty_function_config :=
  example_config (fun _ => Returned alpha_beta_gamma) None
                 (Some (MessageFunction (fun _ => ret ""))).

Definition hello : PrepareStepOptions :=
  {| stepNumber := 1; messages := [ {| role := user; content := "hello" |} ] |}.

(** Three handlers over a counter: the second one throws. *)
Definition counting : StepResult -> Eff string nat unit :=
  fun _ n => (Returned tt, S n).
Definition throwing : StepResult -> Eff string nat unit :=
  fun _ n => (Thrown "handler failed", n).

End Examples.

(** ** Sequences of hook calls

    The generation loop calls the two hooks of one [dynamicTools] result
    again and again.  [run] plays any sequence of such calls on the
    closure and collects what the [prepareStep] calls return; a call
    that throws leaves the closure as it is at the throw, and the
    sequence goes on, as for a caller that catches. *)

Inductive HookCall :=
  | Finish (step : StepResult)
  | Prepare (options : PrepareStepOptions).

Section Runs.

Context {Tool World Err : Type}.

Fixpoint run (config : DynamicToolsConfig Tool World Err)
    (calls : list HookCall) (st : Closure Tool World)
  : list (option PrepareStepResult) * Closure Tool World :=
  match calls with
  | [] => ([], st)
  | Finish step :: rest =>
      run config rest (result_onStepFinish (dynamicTools config) step st).2
  | Prepare options :: rest =>
      let (out, st') := call_prepareStep (dynamicTools config) options st in
      let (outs, st'') := run config rest st' in
      (match out with Returned o => o | Thrown _ => None end :: outs, st'')
  end.

(** How many of the [prepareStep] calls returned an override. *)
Definition overrides (outs : list (option PrepareStepResult)) : nat :=
  length (omap id outs).

(** 1 when a notification that [prepareStep] would deliver is pending. *)
Definition armed (st : Closure Tool World) : nat :=
  match pendingRefreshMessage st with
  | Some text => if truthy text then 1 else 0
  | None => 0
  end.

(** A handler of the caller, as [composeStepHandlers] sees it next to
    [onStepFinish]: it acts on the caller's state. *)
Definition user_handler (h : StepResult -> Eff Err World unit)
  : StepResult -> Eff Err (Closure Tool World) unit :=
  fun step => call (h step).

End Runs.

Definition is_CalledRefreshTools (c : Call) : bool :=
  match c with CalledRefreshTools => true | _ => false end.

(** How many calls of [refreshTools] a log records. *)
Definition refreshTools_calls (log : list Call) : nat :=
  length (List.filter is_CalledRefreshTools log).

(** ** The demo (demos/getWeather.ts)

    The caller's state is what was written to the console. *)

Module Demo.

Inductive DemoTool := login | getLocation | getWeather.

Definition loginTools : JsObject.t DemoTool := [("login", login)].

Definition featureTools : JsObject.t DemoTool :=
  [("getLocation", getLocation); ("getWeather", getWeather)].

(** Lines 39-47. *)
Definition config : DynamicToolsConfig DemoTool (list string) string :=
  {| config_tools := loginTools;
     refreshTools := ret (OtherObject featureTools);
     shouldRefresh :=
       fun step =>
         ret (existsb (fun tc => String.eqb (toolName tc) "login")
                      (toolCalls step));
     onRefresh :=
       Some (fun names console =>
               (Returned tt,
                console
                ++ ["[dynamicTools] refreshed → " +:+ String.concat ", " names]));
     refreshMessage :=
       Some (MessageFunction
               (fun names =>
                  ret ("Your tools have been updated after login. Available tools: "
                       +:+ String.concat ", " names
                       +:+ ". Use them to answer the user's question."))) |}.

End Demo.

(** ** More configurations *)

Module MoreExamples.
Import Examples.

(** [shouldRefresh] throws. *)
Definition failing_predicate_config : DynamicToolsConfig nat nat string :=
  {| config_tools := [("old", 0)];
     refreshTools := fun callCount => (Returned alpha_beta_gamma, S callCount);
     shouldRefresh := fun _ w => (Thrown "predicate failed", w);
     onRefresh := None;
     refreshMessage := Some (MessageString "Updated!") |}.

(** The [refreshMessage] function throws. *)
Definition failing_template_config :=
  example_config (fun _ => Returned alpha_beta_gamma)
                 (Some (fun _ => Returned tt))
                 (Some (MessageFunction
                          (fun _ w => (Thrown "template failed", w)))).

(** A replacement with an own property [__proto__], as
    [Object.fromEntries([["__proto__", t1], ["a", t2]])] or [JSON.parse]
    build it. *)
Definition proto_and_a : JsObject.t nat := [("__proto__", 1); ("a", 2)].

Definition proto_config :=
  example_config (fun _ => Returned (OtherObject proto_and_a)) None None.

Definition proto_failing_observer_config :=
  example_config (fun _ => Returned (OtherObject proto_and_a))
                 (Some (fun _ => Thrown "observer failed")) None.

(** The same object as [config.tools]. *)
Definition proto_initial_config : DynamicToolsConfig nat nat string :=
  {| config_tools := proto_and_a;
     refreshTools := fun callCount => (Returned alpha_beta_gamma, S callCount);
     shouldRefresh := fun _ w => (Returned false, w);
     onRefresh := None;
     refreshMessage := None |}.

(** A loop of two steps, the first of which loads a skill. *)
Definition two_steps : list HookCall :=
  [Prepare hello; Finish load_skill; Prepare hello; Finish other_step;
   Prepare hello].

Definition quiet_steps : list HookCall :=
  [Prepare hello; Finish other_step; Prepare hello; Finish other_step].

End MoreExamples.

(** * Properties *)

(** ** Ordinary objects *)

Module JsObjectFacts.
Import JsObject.

Lemma insert_index_perm k l : insert_index k l ≡ₚ k :: l.
Proof.
  induction l as [|k' l IH]; simpl; [done|].
  destruct (index_value k <=? index_value k')%N; [done|].
  rewrite IH. apply Permutation_swap.
Qed.

Lemma sort_indices_perm l : sort_indices l ≡ₚ l.
Proof.
  induction l as [|k l IH]; simpl; [done|].
  by rewrite insert_index_perm, IH.
Qed.

Lemma insert_index_sorted k l :
  Sorted index_le l -> Sorted index_le (insert_index k l).
Proof.
  induction 1 as [|k' l Hl IH Hhd]; simpl.
  - by repeat constructor.
  - destruct (index_value k <=? index_value k')%N eqn:Hle.
    + apply N.leb_le in Hle. by repeat constructor.
    + apply N.leb_gt in Hle. constructor; [done|].
      destruct Hhd as [|k'' l Hk'']; simpl.
      * constructor. unfold index_le. lia.
      * destruct (index_value k <=? index_value k'')%N;
          constructor; unfold index_le in *; lia.
Qed.

Lemma sort_indices_sorted l : Sorted index_le (sort_indices l).
Proof.
  induction l; simpl; [constructor | by apply insert_index_sorted].
Qed.

(** Sorting a list that is in ascending order changes nothing. *)
Lemma sort_indices_fixed l : Sorted index_le l -> sort_indices l = l.
Proof.
  induction 1 as [|k l Hl IH Hhd]; simpl; [done|].
  rewrite IH. destruct Hhd as [|k' l Hk]; simpl; [done|].
  apply N.leb_le in Hk. by rewrite Hk.
Qed.

Lemma filter_index_all (l : list string) :
  Forall (fun k => is_array_index k = true) l ->
  filter (fun k => is_array_index k = true) l = l
  /\ filter (fun k => is_array_index k = false) l = [].
Proof.
  induction 1 as [|k l Hk _ [IH1 IH2]]; [done|].
  rewrite !filter_cons. rewrite decide_True by done.
  rewrite decide_False by congruence. by rewrite IH1, IH2.
Qed.

Lemma filter_index_none (l : list string) :
  Forall (fun k => is_array_index k = false) l ->
  filter (fun k => is_array_index k = true) l = []
  /\ filter (fun k => is_array_index k = false) l = l.
Proof.
  induction 1 as [|k l Hk _ [IH1 IH2]]; [done|].
  rewrite !filter_cons. rewrite decide_False by congruence.
  rewrite decide_True by done. by rewrite IH1, IH2.
Qed.

Lemma order_keys_perm names : order_keys names ≡ₚ names.
Proof.
  unfold order_keys. rewrite sort_indices_perm.
  induction names as [|k names IH]; [done|].
  rewrite !filter_cons.
  destruct (is_array_index k) eqn:Hk.
  - rewrite decide_True by done. rewrite decide_False by done.
    simpl. by rewrite IH.
  - rewrite decide_False by done. rewrite decide_True by done.
    rewrite <- Permutation_middle. by rewrite IH.
Qed.

(** Without array indices among the names, the order is the order of
    creation. *)
Lemma order_keys_no_index names :
  Forall (fun k => is_array_index k = false) names ->
  order_keys names = names.
Proof.
  intros H. unfold order_keys.
  destruct (filter_index_none names H) as [-> ->]. done.
Qed.

(** Listing the names of a list already in enumeration order gives the
    same list. *)
Lemma order_keys_idem names : order_keys (order_keys names) = order_keys names.
Proof.
  unfold order_keys at 2 3.
  set (idx := sort_indices _). set (rest := filter _ names).
  assert (Hidx : Forall (fun k => is_array_index k = true) idx).
  { subst idx. rewrite sort_indices_perm. apply Forall_forall.
    by intros k [? _]%list_elem_of_filter. }
  assert (Hrest : Forall (fun k => is_array_index k = false) rest).
  { subst rest. apply Forall_forall. by intros k [? _]%list_elem_of_filter. }
  unfold order_keys. rewrite !filter_app.
  destruct (filter_index_all idx Hidx) as [-> ->].
  destruct (filter_index_none rest Hrest) as [-> ->].
  rewrite app_nil_r. simpl. f_equal.
  subst idx. apply sort_indices_fixed, sort_indices_sorted.
Qed.

(** The array indices come out in ascending order, the other names in
    the order they had. *)
Lemma order_keys_index_sorted names :
  Sorted index_le (filter (fun k => is_array_index k = true) (order_keys names)).
Proof.
  unfold order_keys.
  set (idx := sort_indices _). set (rest := filter _ names).
  assert (Hidx : Forall (fun k => is_array_index k = true) idx).
  { subst idx. rewrite sort_indices_perm. apply Forall_forall.
    by intros k [? _]%list_elem_of_filter. }
  assert (Hrest : Forall (fun k => is_array_index k = false) rest).
  { subst rest. apply Forall_forall. by intros k [? _]%list_elem_of_filter. }
  rewrite filter_app.
  destruct (filter_index_all idx Hidx) as [-> _].
  destruct (filter_index_none rest Hrest) as [-> _].
  rewrite app_nil_r. apply sort_indices_sorted.
Qed.

Lemma order_keys_others names :
  filter (fun k => is_array_index k = false) (order_keys names)
  = filter (fun k => is_array_index k = false) names.
Proof.
  unfold order_keys.
  set (idx := sort_indices _). set (rest := filter _ names).
  assert (Hidx : Forall (fun k => is_array_index k = true) idx).
  { subst idx. rewrite sort_indices_perm. apply Forall_forall.
    by intros k [? _]%list_elem_of_filter. }
  assert (Hrest : Forall (fun k => is_array_index k = false) rest).
  { subst rest. apply Forall_forall. by intros k [? _]%list_elem_of_filter. }
  rewrite filter_app.
  destruct (filter_index_all idx Hidx) as [_ ->].
  by destruct (filter_index_none rest Hrest) as [_ ->].
Qed.

Lemma elem_of_ownKeys {V} (o : t V) k : k ∈ ownKeys o <-> k ∈ o.*1.
Proof. unfold ownKeys. by rewrite order_keys_perm. Qed.

Lemma NoDup_ownKeys {V} (o : t V) : wf o -> NoDup (ownKeys o).
Proof. unfold wf, ownKeys. by rewrite order_keys_perm. Qed.

Lemma get_None {V} (o : t V) k : k ∉ o.*1 -> get k o = None.
Proof.
  induction o as [|[k' v] o IH]; simpl; [done|].
  intros Hk. apply not_elem_of_cons in Hk as [Hne Hk].
  destruct (String.eqb_spec k k'); [done | auto].
Qed.

Lemma get_is_Some {V} (o : t V) k : k ∈ o.*1 -> is_Some (get k o).
Proof.
  induction o as [|[k' v] o IH]; simpl.
  - by intros ?%elem_of_nil.
  - intros Hk. destruct (String.eqb_spec k k'); [by eexists|].
    apply elem_of_cons in Hk as [?|?]; [done | auto].
Qed.

Lemma get_app {V} (o1 o2 : t V) k :
  get k (o1 ++ o2) = match get k o1 with Some v => Some v | None => get k o2 end.
Proof.
  induction o1 as [|[k' v] o1 IH]; simpl; [done|].
  by destruct (String.eqb k k').
Qed.

(** Defining a name the object does not have creates the property
    last. *)
Lemma define_fresh {V} (o : t V) k v : k ∉ o.*1 -> define k v o = o ++ [(k, v)].
Proof.
  induction o as [|[k' v'] o IH]; simpl; [done|].
  intros Hk. apply not_elem_of_cons in Hk as [Hne Hk].
  destruct (String.eqb_spec k k'); [done|]. by rewrite IH.
Qed.

(** Deleting every name the object has leaves nothing. *)
Lemma delete_all {V} (names : list string) (o : t V) :
  (forall p, p ∈ o -> p.1 ∈ names) ->
  foldl (fun o key => delete key o) o names = [].
Proof.
  revert o. induction names as [|k names IH]; intros o Ho; simpl.
  - destruct o as [|p o]; [done|].
    specialize (Ho p (list_elem_of_here _ _)). by apply elem_of_nil in Ho.
  - apply IH. intros p [Hne Hp]%list_elem_of_filter.
    specialize (Ho p Hp). apply elem_of_cons in Ho as [?|?]; done.
Qed.

(** Lines 56-58 on an object. *)
Lemma delete_ownKeys {V} (o : t V) :
  foldl (fun o key => delete key o) o (keys o) = [].
Proof.
  apply delete_all. intros p Hp. apply elem_of_ownKeys.
  apply list_elem_of_fmap. by exists p.
Qed.

(** Defining, on [acc], names it does not have: the properties are
    created after those of [acc], in the order of the names. *)
Lemma define_names {V} (source : t V) (names : list string) (acc : t V) :
  NoDup names ->
  (forall k, k ∈ names -> k ∉ acc.*1) ->
  (forall k, k ∈ names -> k ∈ source.*1) ->
  let r := foldl (fun tgt k =>
                    match get k source with
                    | Some v => define k v tgt
                    | None => tgt
                    end) acc names in
  r.*1 = acc.*1 ++ names
  /\ forall k, get k r =
       match get k acc with
       | Some v => Some v
       | None => if decide (k ∈ names) then get k source else None
       end.
Proof.
  revert acc. induction names as [|k names IH]; intros acc Hnd Hacc Hsrc; simpl.
  - split; [by rewrite app_nil_r|]. intros k. by destruct (get k acc).
  - apply NoDup_cons in Hnd as [Hk Hnd].
    destruct (get_is_Some source k) as [v Hv]; [apply Hsrc; left|].
    rewrite Hv. rewrite define_fresh by (apply Hacc; left).
    destruct (IH (acc ++ [(k, v)])) as [IHk IHg]; [done| | |].
    { intros k' Hk'. rewrite fmap_app. simpl. rewrite elem_of_app.
      intros [?|?%list_elem_of_singleton].
      - by apply (Hacc k'); [right|].
      - by subst. }
    { intros k' Hk'. apply Hsrc. by right. }
    split.
    + rewrite IHk, fmap_app. simpl. by rewrite <- app_assoc.
    + intros k'. rewrite IHg, get_app. simpl.
      destruct (get k' acc) as [x|] eqn:Hx; [done|].
      destruct (String.eqb_spec k' k) as [->|Hne].
      * rewrite decide_True by left. by rewrite Hv.
      * destruct (decide (k' ∈ names)).
        -- rewrite decide_True by (by right). done.
        -- rewrite decide_False; [done|].
           intros [?|?]%elem_of_cons; done.
Qed.

(** Object spread: the copy has the names of the source, in the order
    [Object.keys] lists them, with the same values. *)
Lemma spread_spec {V} (source : t V) :
  wf source ->
  (spread source).*1 = ownKeys source
  /\ keys (spread source) = keys source
  /\ forall k, get k (spread source) = get k source.
Proof.
  intros Hwf. unfold spread.
  destruct (define_names source (ownKeys source) [])
    as [Hk Hg]; [by apply NoDup_ownKeys| | |].
  { intros k _. apply not_elem_of_nil. }
  { intros k. apply elem_of_ownKeys. }
  simpl in Hk, Hg. split; [done|]. split.
  - unfold keys, ownKeys at 1. rewrite Hk. apply order_keys_idem.
  - intros k. rewrite Hg. destruct (decide (k ∈ ownKeys source)) as [|Hn]; [done|].
    symmetry. apply get_None. by rewrite <- elem_of_ownKeys.
Qed.

(** *** Assignment and [__proto__] *)

Lemma has_false {V} (o : t V) k : k ∉ o.*1 -> has k o = false.
Proof. intros Hk. unfold has. by rewrite get_None. Qed.

(** Assigning [__proto__] on an object that does not have it creates
    nothing; assigning any other name defines it. *)
Lemma set_proto_absent {V} (o : t V) v :
  "__proto__" ∉ o.*1 -> set "__proto__" v o = o.
Proof. intros Hk. unfold set. by rewrite has_false. Qed.

Lemma set_other {V} (o : t V) k v : k <> "__proto__" -> set k v o = define k v o.
Proof.
  intros Hk. unfold set. by destruct (String.eqb_spec k "__proto__").
Qed.

Lemma elem_of_define {V} (o : t V) k v k' :
  k' ∈ (define k v o).*1 <-> k' = k \/ k' ∈ o.*1.
Proof.
  induction o as [|[k0 v0] o IH]; simpl.
  - rewrite list_elem_of_singleton, elem_of_nil. tauto.
  - destruct (String.eqb_spec k k0) as [->|Hne]; simpl.
    + rewrite !elem_of_cons. tauto.
    + rewrite !elem_of_cons, IH. tauto.
Qed.

(** [Object.assign] on a target without [__proto__]: it is as if the
    names of the source other than [__proto__] were defined. *)
Lemma assign_names {V} (source : t V) (names : list string) (acc : t V) :
  "__proto__" ∉ acc.*1 ->
  foldl (fun tgt k =>
           match get k source with
           | Some v => set k v tgt
           | None => tgt
           end) acc names
  = foldl (fun tgt k =>
             match get k source with
             | Some v => define k v tgt
             | None => tgt
             end) acc (filter (fun k => k <> "__proto__") names).
Proof.
  revert acc. induction names as [|k names IH]; intros acc Hacc; [done|].
  rewrite filter_cons. destruct (decide (k <> "__proto__")) as [Hk|Hk]; simpl.
  - destruct (get k source) as [v|]; [|by apply IH].
    rewrite set_other by done. apply IH.
    rewrite elem_of_define. intros [?|?]; [by subst|done].
  - assert (k = "__proto__") as -> by (by destruct (decide (k = "__proto__"))).
    destruct (get "__proto__" source) as [v|]; [|by apply IH].
    rewrite set_proto_absent by done. by apply IH.
Qed.

Lemma filter_all {A} (P : A -> Prop) `{!forall x, Decision (P x)} (l : list A) :
  Forall P l -> filter P l = l.
Proof.
  induction 1 as [|x l Hx _ IH]; [done|].
  by rewrite filter_cons, decide_True, IH.
Qed.

(** [__proto__] is not an array index, so leaving it out and listing
    the names in enumeration order can be done in either order. *)
Lemma order_keys_without_proto names :
  order_keys (filter (fun k => k <> "__proto__") names)
  = filter (fun k => k <> "__proto__") (order_keys names).
Proof.
  assert (Hidx : forall k, is_array_index k = true -> k <> "__proto__")
    by (by intros k Hk ->).
  unfold order_keys. rewrite filter_app. f_equal.
  - rewrite list_filter_filter_l by done.
    symmetry. apply filter_all. rewrite sort_indices_perm.
    apply Forall_forall. intros k [Hk _]%list_elem_of_filter. by apply Hidx.
  - rewrite !list_filter_filter. apply list_filter_iff. tauto.
Qed.

(** [Object.assign] on an empty target: the target gets the names of the
    source other than [__proto__], in the order [Object.keys] lists
    them, with the values of the source. *)
Lemma assign_empty {V} (source : t V) :
  wf source ->
  keys (assign [] source) = filter (fun k => k <> "__proto__") (keys source)
  /\ forall k, get k (assign [] source)
               = if decide (k = "__proto__") then None else get k source.
Proof.
  intros Hwf. unfold assign.
  rewrite assign_names by apply not_elem_of_nil.
  destruct (define_names source
              (filter (fun k => k <> "__proto__") (ownKeys source)) [])
    as [Hk Hg].
  { apply NoDup_filter. by apply NoDup_ownKeys. }
  { intros k _. apply not_elem_of_nil. }
  { intros k [_ Hk]%list_elem_of_filter. by apply elem_of_ownKeys. }
  simpl in Hk, Hg. split.
  - unfold keys, ownKeys at 1. rewrite Hk. unfold ownKeys.
    by rewrite <- order_keys_without_proto, order_keys_idem.
  - intros k. rewrite Hg. destruct (decide (k = "__proto__")) as [->|Hne].
    + rewrite decide_False; [done|]. by intros [? _]%list_elem_of_filter.
    + destruct (decide (k ∈ ownKeys source)) as [Hin|Hn].
      * rewrite decide_True; [done|]. by apply list_elem_of_filter.
      * rewrite decide_False by (by intros [_ ?]%list_elem_of_filter).
        symmetry. apply get_None. by rewrite <- elem_of_ownKeys.
Qed.

(** Without [__proto__] among its names, the source is copied whole. *)
Lemma assign_empty_whole {V} (source : t V) :
  wf source ->
  "__proto__" ∉ source.*1 ->
  keys (assign [] source) = keys source
  /\ forall k, get k (assign [] source) = get k source.
Proof.
  intros Hwf Hproto. destruct (assign_empty source Hwf) as [Hk Hg]. split.
  - rewrite Hk. apply filter_all. apply Forall_forall.
    intros k Hin ->. by apply elem_of_ownKeys in Hin.
  - intros k. rewrite Hg. destruct (decide (k = "__proto__")) as [->|]; [|done].
    symmetry. by apply get_None.
Qed.

Lemma keys_nil {V} (o : t V) : keys o = [] -> o = [].
Proof.
  intros H. destruct o as [|[k v] o]; [done|].
  assert (Hk : k ∈ keys (((k, v) :: o))) by (apply elem_of_ownKeys; left).
  rewrite H in Hk. by apply elem_of_nil in Hk.
Qed.

End JsObjectFacts.

(** ** Running computations *)

Lemma bind_returned {Err S A B} (c : Eff Err S A) (k : A -> Eff Err S B)
    s a s' :
  c s = (Returned a, s') -> bind c k s = k a s'.
Proof. intros H. unfold bind. by rewrite H. Qed.

Lemma bind_thrown {Err S A B} (c : Eff Err S A) (k : A -> Eff Err S B)
    s e s' :
  c s = (Thrown e, s') -> bind c k s = (Thrown e, s').
Proof. intros H. unfold bind. by rewrite H. Qed.

Lemma call_run {Tool World Err A} (f : Eff Err World A)
    (st : Closure Tool World) out w :
  f (world st) = (out, w) -> call f st = (out, with_world w st).
Proof. intros H. unfold call. by rewrite H. Qed.

(** ** The swap (lines 56-59) *)

Section Swap.

Context {Tool World Err : Type}.
Implicit Types (st : Closure Tool World) (r : ToolSetRef Tool).

Lemma with_tools_same st : with_tools (tools st) st = st.
Proof. by destruct st. Qed.

Lemma foldl_with_tools (g : string -> JsObject.t Tool -> JsObject.t Tool)
    names st :
  foldl (fun s key => with_tools (g key (tools s)) s) st names
  = with_tools (foldl (fun o key => g key o) (tools st) names) st.
Proof.
  revert st. induction names as [|k names IH]; intros st; simpl.
  - by rewrite with_tools_same.
  - by rewrite IH.
Qed.

Lemma clear_tools_spec st :
  clear_tools (Err := Err) st = (Returned tt, with_tools [] st).
Proof.
  unfold clear_tools.
  rewrite (foldl_with_tools (fun key o => JsObject.delete key o)).
  by rewrite JsObjectFacts.delete_ownKeys.
Qed.

Lemma assign_tools_spec r st :
  tools st = [] ->
  assign_tools (Err := Err) r st = (Returned tt, with_tools (replaced r) st).
Proof.
  intros Hempty. unfold assign_tools. destruct r as [|o]; simpl.
  - rewrite Hempty. simpl. by rewrite <- Hempty, with_tools_same.
  - unfold JsObject.assign. rewrite <- Hempty. clear Hempty.
    generalize (JsObject.ownKeys o) as names. intros names. revert st.
    induction names as [|k names IH]; intros st; simpl.
    + by rewrite with_tools_same.
    + destruct (JsObject.get k o) as [v|]; [|apply IH].
      rewrite IH. by destruct st.
Qed.

(** Lines 56-59 replace the properties of [tools] and touch nothing
    else. *)
Lemma swap_spec r st :
  (clear_tools (Err := Err) ;;; assign_tools r) st
  = (Returned tt, with_tools (replaced r) st).
Proof.
  unfold bind. rewrite clear_tools_spec.
  rewrite assign_tools_spec by done. by destruct st.
Qed.

(** The registry after the swap has the properties of the replacement
    other than [__proto__], as [Object.keys] lists them, with the
    replacement's values. *)
Lemma replaced_other (o : JsObject.t Tool) :
  JsObject.wf o ->
  JsObject.keys (replaced (OtherObject o))
  = filter (fun k => k <> "__proto__") (JsObject.keys o)
  /\ forall k, JsObject.get k (replaced (OtherObject o))
               = if decide (k = "__proto__") then None else JsObject.get k o.
Proof. intros Hwf. simpl. by apply JsObjectFacts.assign_empty. Qed.

(** A replacement without [__proto__] among its names is taken whole. *)
Lemma replaced_other_whole (o : JsObject.t Tool) :
  JsObject.wf o ->
  "__proto__" ∉ o.*1 ->
  JsObject.keys (replaced (OtherObject o)) = JsObject.keys o
  /\ forall k, JsObject.get k (replaced (OtherObject o)) = JsObject.get k o.
Proof. intros Hwf Hproto. simpl. by apply JsObjectFacts.assign_empty_whole. Qed.

End Swap.

(** ** [onStepFinish] *)

Section OnStepFinish.

Context {Tool World Err : Type}.
Implicit Types (config : DynamicToolsConfig Tool World Err).
Implicit Types (st : Closure Tool World) (r : ToolSetRef Tool).

Lemma onStepFinish_skip config step st w1 :
  shouldRefresh config step (world st) = (Returned false, w1) ->
  onStepFinish config step st = (Returned tt, with_world w1 st).
Proof.
  intros H. unfold onStepFinish.
  by rewrite (bind_returned _ _ _ _ _ (call_run _ _ _ _ H)).
Qed.

Lemma onStepFinish_fetch_failure config step st w1 e w2 :
  shouldRefresh config step (world st) = (Returned true, w1) ->
  refreshTools config w1 = (Thrown e, w2) ->
  onStepFinish config step st = (Thrown e, with_world w2 st).
Proof.
  intros H1 H2. unfold onStepFinish.
  rewrite (bind_returned _ _ _ _ _ (call_run _ _ _ _ H1)). cbv beta. change (negb true) with false. cbv iota.
  by rewrite (bind_thrown _ _ _ _ _ (call_run _ (with_world w1 st) _ _ H2)).
Qed.

(** Once the replacement is there, the swap is done and lines 61-69 run
    on the swapped registry. *)
Lemma onStepFinish_swap config step st w1 r w2 :
  shouldRefresh config step (world st) = (Returned true, w1) ->
  refreshTools config w1 = (Returned r, w2) ->
  onStepFinish config step st
  = announce config (with_tools (replaced r) (with_world w2 st)).
Proof.
  intros H1 H2. unfold onStepFinish.
  rewrite (bind_returned _ _ _ _ _ (call_run _ _ _ _ H1)). cbv beta. change (negb true) with false. cbv iota.
  rewrite (bind_returned _ _ _ _ _ (call_run _ (with_world w1 st) _ _ H2)).
  pose proof (swap_spec (Err := Err) r (with_world w2 st)) as Hs.
  unfold bind in Hs |- *.
  change (with_world w2 (with_world w1 st)) with (with_world w2 st).
  destruct (clear_tools (with_world w2 st)) as [[[]|e] s1]; [|done].
  destruct (assign_tools r s1) as [[[]|e] s2]; [|done].
  by inversion Hs.
Qed.

(** Lines 61-69 never write to the registry. *)
Lemma announce_tools config st : tools (announce config st).2 = tools st.
Proof.
  unfold announce, bind, call, set_pendingRefreshMessage, ret. simpl.
  destruct (onRefresh config) as [f|]; simpl.
  - destruct (f _ (world st)) as [[[]|e] w]; simpl; [|done].
    destruct (refreshMessage config) as [[s|g]|]; simpl; [| |done].
    + by destruct (truthy s).
    + by destruct (g _ w) as [[text|e] w'].
  - destruct (refreshMessage config) as [[s|g]|]; simpl; [| |done].
    + by destruct (truthy s).
    + by destruct (g _ (world st)) as [[text|e] w'].
Qed.

(** Whatever lines 61-69 throw was thrown by [onRefresh] or by the
    [refreshMessage] function, called with the names of the registry. *)
Lemma announce_thrown config st e :
  (announce config st).1 = Thrown e ->
  (exists f w w', onRefresh config = Some f
     /\ f (JsObject.keys (tools st)) w = (Thrown e, w'))
  \/ (exists f w w', refreshMessage config = Some (MessageFunction f)
     /\ f (JsObject.keys (tools st)) w = (Thrown e, w')).
Proof.
  unfold announce, bind, call, set_pendingRefreshMessage, ret. simpl.
  destruct (onRefresh config) as [f|] eqn:Hf; simpl.
  - destruct (f _ (world st)) as [[[]|e'] w] eqn:Hfw; simpl.
    + destruct (refreshMessage config) as [[s|g]|] eqn:Hrm; simpl; [| |done].
      * by destruct (truthy s).
      * destruct (g _ w) as [[text|e'] w'] eqn:Hg; simpl; [done|].
        intros [= ->]. right. eauto 10.
    + intros [= ->]. left. eauto 10.
  - destruct (refreshMessage config) as [[s|g]|] eqn:Hrm; simpl; [| |done].
    + by destruct (truthy s).
    + destruct (g _ (world st)) as [[text|e'] w'] eqn:Hg; simpl; [done|].
      intros [= ->]. right. eauto 10.
Qed.

Lemma announce_observer_failure config st f e w3 :
  onRefresh config = Some f ->
  f (JsObject.keys (tools st)) (world st) = (Thrown e, w3) ->
  announce config st = (Thrown e, with_world w3 st).
Proof.
  intros Hf Hthrow. unfold announce, bind, call. simpl.
  rewrite Hf. simpl. by rewrite Hthrow.
Qed.

(** A run of lines 61-69 that returns, for a truthy [refreshMessage]:
    the pending notification is the fixed string, or what the function
    returned for the names of the registry. *)
Lemma announce_returned config st st1 :
  refreshMessage_truthy (refreshMessage config) = true ->
  announce config st = (Returned tt, st1) ->
  tools st1 = tools st
  /\ exists text w3,
       pendingRefreshMessage st1 = Some text
       /\ match refreshMessage config with
          | Some (MessageString s) => text = s /\ world st1 = w3
          | Some (MessageFunction g) =>
              g (JsObject.keys (tools st1)) w3 = (Returned text, world st1)
          | None => False
          end.
Proof.
  intros Htruthy. unfold announce, bind, call, set_pendingRefreshMessage, ret.
  simpl. rewrite Htruthy.
  destruct (onRefresh config) as [f|]; simpl.
  - destruct (f _ (world st)) as [[[]|e] w]; simpl; [|done].
    destruct (refreshMessage config) as [[s|g]|]; simpl; [| |done].
    + intros [= <-]. simpl. eauto 10.
    + destruct (g _ w) as [[text|e] w'] eqn:Hg; simpl; [|done].
      intros [= <-]. simpl. eauto 10.
  - destruct (refreshMessage config) as [[s|g]|]; simpl; [| |done].
    + intros [= <-]. simpl. eauto 10.
    + destruct (g _ (world st)) as [[text|e] w'] eqn:Hg; simpl; [|done].
      intros [= <-]. simpl. eauto 10.
Qed.

(** Without a truthy [refreshMessage], lines 61-69 leave the pending
    notification alone. *)
Lemma announce_not_truthy config st :
  refreshMessage_truthy (refreshMessage config) = false ->
  pendingRefreshMessage (announce config st).2 = pendingRefreshMessage st.
Proof.
  intros Hfalsy. unfold announce, bind, call, ret. simpl. rewrite Hfalsy.
  destruct (onRefresh config) as [f|]; simpl; [|done].
  by destruct (f _ (world st)) as [[[]|e] w].
Qed.

(** A triggered refresh that completes, for a truthy [refreshMessage],
    arms the notification it computed, whatever was pending before. *)
Lemma refresh_arms config step st w1 st1 :
  refreshMessage_truthy (refreshMessage config) = true ->
  shouldRefresh config step (world st) = (Returned true, w1) ->
  onStepFinish config step st = (Returned tt, st1) ->
  exists text w3,
    pendingRefreshMessage st1 = Some text
    /\ match refreshMessage config with
       | Some (MessageString s) => text = s /\ world st1 = w3
       | Some (MessageFunction g) =>
           g (JsObject.keys (tools st1)) w3 = (Returned text, world st1)
       | None => False
       end.
Proof.
  intros Htruthy H1 Hrun.
  destruct (refreshTools config w1) as [[r|e] w2] eqn:H2.
  - rewrite (onStepFinish_swap config step st w1 r w2 H1 H2) in Hrun.
    by destruct (announce_returned config _ st1 Htruthy Hrun) as [_ ?].
  - rewrite (onStepFinish_fetch_failure config step st w1 e w2 H1 H2) in Hrun.
    done.
Qed.

(** [onStepFinish] with a [refreshMessage] that is not truthy never
    writes [pendingRefreshMessage]. *)
Lemma onStepFinish_not_truthy config step st :
  refreshMessage_truthy (refreshMessage config) = false ->
  pendingRefreshMessage (onStepFinish config step st).2
  = pendingRefreshMessage st.
Proof.
  intros Hfalsy.
  destruct (shouldRefresh config step (world st)) as [[[]|e] w1] eqn:H1.
  - destruct (refreshTools config w1) as [[r|e] w2] eqn:H2.
    + rewrite (onStepFinish_swap config step st w1 r w2 H1 H2).
      by rewrite announce_not_truthy.
    + by rewrite (onStepFinish_fetch_failure config step st w1 e w2 H1 H2).
  - by rewrite (onStepFinish_skip config step st w1 H1).
  - unfold onStepFinish.
    by rewrite (bind_thrown _ _ _ _ _ (call_run _ _ _ _ H1)).
Qed.

End OnStepFinish.

(** ** [prepareStep] *)

Section PrepareStep.

Context {Tool World Err : Type}.
Implicit Types (st : Closure Tool World).

Lemma truthy_true s : truthy s = true <-> s <> "".
Proof.
  unfold truthy. destruct (String.eqb_spec s ""); simpl; split; congruence.
Qed.

Lemma truthy_false s : truthy s = false <-> s = "".
Proof.
  unfold truthy. destruct (String.eqb_spec s ""); simpl; split; congruence.
Qed.

(** Armed: the notification is read and cleared, and the messages come
    back with one more. *)
Lemma prepareStep_armed options st text :
  pendingRefreshMessage st = Some text ->
  text <> "" ->
  prepareStep (Err := Err) options st
  = (Returned
       (Some {| override_messages :=
                  messages options
                  ++ [ {| role := user;
                          content := "[system: " +:+ text +:+ "]" |} ] |}),
     with_pending None st).
Proof.
  intros Hp Hne. unfold prepareStep. rewrite Hp.
  apply truthy_true in Hne. by rewrite Hne.
Qed.

(** Nothing pending, or the empty string pending: no override, and
    nothing changes. *)
Lemma prepareStep_idle options st :
  pendingRefreshMessage st = None \/ pendingRefreshMessage st = Some "" ->
  prepareStep (Err := Err) options st = (Returned None, st).
Proof. intros [Hp|Hp]; unfold prepareStep; by rewrite Hp. Qed.

End PrepareStep.

(** ** Spied configurations *)

Section SpiedFacts.

Context {Tool World Err : Type}.
Implicit Types (config : DynamicToolsConfig Tool World Err).
Implicit Types (st : Closure Tool World) (log : list Call).

Lemma spy_run {A} (c : Call) (f : Eff Err World A) w log out w' :
  f w = (out, w') -> spy c f (w, log) = (out, (w', log ++ [c])).
Proof. intros H. unfold spy. simpl. by rewrite H. Qed.

Lemma onStepFinish_spied_swap config step st log w1 r w2 :
  shouldRefresh config step (world st) = (Returned true, w1) ->
  refreshTools config w1 = (Returned r, w2) ->
  onStepFinish (spy_config config) step (spied st log)
  = announce (spy_config config)
      (spied (with_tools (replaced r) (with_world w2 st))
             (log ++ [CalledShouldRefresh step; CalledRefreshTools])).
Proof.
  intros H1 H2.
  rewrite (onStepFinish_swap (spy_config config) step (spied st log)
             (w1, log ++ [CalledShouldRefresh step]) r
             (w2, log ++ [CalledShouldRefresh step; CalledRefreshTools])).
  - done.
  - simpl. by apply spy_run.
  - simpl. rewrite (spy_run _ _ _ _ _ _ H2). by rewrite <- app_assoc.
Qed.

(** Lines 61-69, spied on, when [onRefresh] is configured: it is called
    once, with the names of the registry, and the only call that can
    follow is the one to the [refreshMessage] function. *)
Lemma announce_spied_observer config st log f :
  onRefresh config = Some f ->
  let names := JsObject.keys (tools st) in
  exists rest,
    (world (announce (spy_config config) (spied st log)).2).2
    = log ++ CalledOnRefresh names :: rest
    /\ (rest = [] \/ rest = [CalledRefreshMessage names]).
Proof.
  intros Hf names. subst names.
  unfold announce, bind, call, set_pendingRefreshMessage, ret. simpl.
  rewrite Hf. simpl. unfold spy at 1. simpl.
  destruct (f (JsObject.keys (tools st)) (world st)) as [[[]|e] w]; simpl;
    [|by eauto].
  destruct (refreshMessage config) as [[s|g]|]; simpl; [| |by eauto].
  - destruct (truthy s); simpl; eauto.
  - unfold spy. simpl.
    destruct (g (JsObject.keys (tools st)) w) as [[text|e] w']; simpl;
      rewrite <- app_assoc; simpl; eauto.
Qed.

Lemma announce_spied_observer_failure config st log f e w3 :
  onRefresh config = Some f ->
  f (JsObject.keys (tools st)) (world st) = (Thrown e, w3) ->
  announce (spy_config config) (spied st log)
  = (Thrown e,
     spied (with_world w3 st) (log ++ [CalledOnRefresh (JsObject.keys (tools st))])).
Proof.
  intros Hf Hthrow.
  rewrite (announce_observer_failure (spy_config config) (spied st log)
             (fun toolNames => spy (CalledOnRefresh toolNames) (f toolNames))
             e (w3, log ++ [CalledOnRefresh (JsObject.keys (tools st))])).
  - done.
  - simpl. by rewrite Hf.
  - simpl. by apply spy_run.
Qed.

End SpiedFacts.

(** * The claims *)

Section Claims.

Context {Tool World Err : Type}.
Implicit Types (config : DynamicToolsConfig Tool World Err).
Implicit Types (st : Closure Tool World) (log : list Call).
Implicit Types (r : ToolSetRef Tool).

(** X13 (total replacement, lines 53-59).  When [shouldRefresh] returns
    true and [refreshTools] returns a replacement that has no own
    property [__proto__], then after [onStepFinish], whatever
    [onRefresh] and the [refreshMessage] function do, the names of the
    registry are exactly the names of the replacement, in the same
    order, with the replacement's values.  In general the registry gets
    the properties of the replacement other than [__proto__]; it is
    empty when the replacement is the registry object itself; and an
    error, if there is one, was thrown by [onRefresh] or by the
    [refreshMessage] function, not by the swap. *)
Theorem total_replacement config step st w1 r w2 :
  shouldRefresh config step (world st) = (Returned true, w1) ->
  refreshTools config w1 = (Returned r, w2) ->
  wf_ref r ->
  let st' := (onStepFinish config step st).2 in
  (forall o, r = OtherObject o ->
     "__proto__" ∉ o.*1 ->
     JsObject.keys (tools st') = JsObject.keys o
     /\ forall k, JsObject.get k (tools st') = JsObject.get k o)
  /\ (forall o, r = OtherObject o ->
        JsObject.keys (tools st')
        = filter (fun k => k <> "__proto__") (JsObject.keys o)
        /\ forall k, JsObject.get k (tools st')
                     = if decide (k = "__proto__") then None
                       else JsObject.get k o)
  /\ (r = TheRegistry -> tools st' = [])
  /\ (forall e, (onStepFinish config step st).1 = Thrown e ->
        (exists f w w', onRefresh config = Some f
           /\ f (JsObject.keys (tools st')) w = (Thrown e, w'))
        \/ (exists f w w', refreshMessage config = Some (MessageFunction f)
           /\ f (JsObject.keys (tools st')) w = (Thrown e, w'))).
Proof.
  intros H1 H2 Hwf st'. subst st'.
  rewrite (onStepFinish_swap config step st w1 r w2 H1 H2).
  set (swapped := with_tools (replaced r) (with_world w2 st)).
  assert (Htools : tools (announce config swapped).2 = replaced r)
    by (by rewrite announce_tools).
  rewrite Htools. split; [|split; [|split]].
  - intros o -> Hproto. by apply replaced_other_whole.
  - intros o ->. by apply replaced_other.
  - by intros ->.
  - intros e He. apply announce_thrown in He. by subst swapped.
Qed.

(** C2 (skip purity).  When [shouldRefresh] returns false,
    [onStepFinish] returns at once.  With every function of the caller
    spied on, the only call recorded is the one to [shouldRefresh]:
    neither [refreshTools] nor [onRefresh] nor the [refreshMessage]
    function is called.  The registry and the pending notification are
    the ones before the call, and the caller's state is as
    [shouldRefresh] left it. *)
Theorem skip_purity config step st log w1 :
  shouldRefresh config step (world st) = (Returned false, w1) ->
  onStepFinish (spy_config config) step (spied st log)
  = (Returned tt, spied (with_world w1 st) (log ++ [CalledShouldRefresh step]))
  /\ tools (with_world w1 st) = tools st
  /\ pendingRefreshMessage (with_world w1 st) = pendingRefreshMessage st
  /\ onStepFinish config step st = (Returned tt, with_world w1 st).
Proof.
  intros H. split; [|split; [done|split; [done|]]].
  - rewrite (onStepFinish_skip (spy_config config) step (spied st log)
               (w1, log ++ [CalledShouldRefresh step])); [done|].
    simpl. by apply spy_run.
  - by apply onStepFinish_skip.
Qed.

(** C3, amended (one-shot notification).  With a [refreshMessage] that is
    a function or a non-empty string, a triggered refresh that completes
    leaves pending the text it computed: the fixed string, or what the
    function returned for the names of the registry.  The hook exists.
    When that text is not empty, the next [prepareStep] call, in any
    state where it is still pending, returns the messages it was given
    followed by exactly one more, a user message [[system: <text>]]; it
    writes nothing but [pendingRefreshMessage], which it clears, so the
    caller's state, where the input array lives, is as before; and from
    then on, as long as nothing is pending, [prepareStep] returns no
    override and changes nothing.  When the text is empty nothing is
    delivered. *)
Theorem one_shot_notification config step st w1 st1 :
  refreshMessage_truthy (refreshMessage config) = true ->
  shouldRefresh config step (world st) = (Returned true, w1) ->
  onStepFinish config step st = (Returned tt, st1) ->
  exists text w3 hook,
    pendingRefreshMessage st1 = Some text
    /\ match refreshMessage config with
       | Some (MessageString s) => text = s /\ s <> "" /\ world st1 = w3
       | Some (MessageFunction g) =>
           g (JsObject.keys (tools st1)) w3 = (Returned text, world st1)
       | None => False
       end
    /\ result_prepareStep (dynamicTools config) = Some hook
    /\ (text <> "" ->
        forall st2 options,
          pendingRefreshMessage st2 = pendingRefreshMessage st1 ->
          hook options st2
          = (Returned
               (Some {| override_messages :=
                          messages options
                          ++ [ {| role := user;
                                  content := "[system: " +:+ text +:+ "]" |} ] |}),
             with_pending None st2))
    /\ (text = "" ->
        forall st2 options,
          pendingRefreshMessage st2 = pendingRefreshMessage st1 ->
          hook options st2 = (Returned None, st2))
    /\ (forall st2 options,
          pendingRefreshMessage st2 = None ->
          hook options st2 = (Returned None, st2)).
Proof.
  intros Htruthy H1 Hrun.
  destruct (refresh_arms config step st w1 st1 Htruthy H1 Hrun)
    as (text & w3 & Hp & Hcomputed).
  exists text, w3, prepareStep. split; [done|]. split; [|split; [|split; [|split]]].
  - destruct (refreshMessage config) as [[s|g]|]; [|done|done].
    destruct Hcomputed as [-> ?]. simpl in Htruthy.
    by apply truthy_true in Htruthy.
  - simpl. by rewrite Htruthy.
  - intros Hne st2 options Hsame. apply prepareStep_armed; [|done].
    by rewrite Hsame.
  - intros -> st2 options Hsame. apply prepareStep_idle. right.
    by rewrite Hsame.
  - intros st2 options Hnone. apply prepareStep_idle. by left.
Qed.

(** C4, amended (hook by configuration).  The result of [dynamicTools]
    has [prepareStep] exactly when [config.refreshMessage] is truthy: a
    function, or a string that is not empty.  Without [refreshMessage],
    and with the empty string, the result has no hook at all; when it has
    one, it is [prepareStep]. *)
Theorem prepareStep_presence config :
  (is_Some (result_prepareStep (dynamicTools config))
   <-> (exists f, refreshMessage config = Some (MessageFunction f))
       \/ (exists s, refreshMessage config = Some (MessageString s) /\ s <> ""))
  /\ match refreshMessage config with
     | None | Some (MessageString "") =>
         result_prepareStep (dynamicTools config) = None
     | Some _ =>
         result_prepareStep (dynamicTools config) = Some prepareStep
     end.
Proof.
  unfold dynamicTools. simpl.
  destruct (refreshMessage config) as [[s|f]|] eqn:Hrm; simpl.
  - destruct (truthy s) eqn:Hs.
    + apply truthy_true in Hs. split.
      * split; [|by eexists]. intros _. right. by exists s.
      * by destruct s.
    + apply truthy_false in Hs. subst s. split; [|done]. split.
      * by intros [? ?].
      * intros [[f [=]]|[s [[= <-] Hne]]]. done.
  - split; [|done]. split; [|by eexists]. intros _. left. by exists f.
  - split; [|done]. split.
    + by intros [? ?].
    + by intros [[f [=]]|[s [[=] _]]].
Qed.

(** C5 (refresh-fetch failure).  When [shouldRefresh] returns true and
    [refreshTools] throws (its promise rejects) with [e], [onStepFinish]
    throws [e]; the registry has the properties it had before the call, in
    the same order, and the pending notification is the one before the
    call: nothing was cleared and nothing was armed.  Spied on, neither
    [onRefresh] nor the [refreshMessage] function is called. *)
Theorem refresh_fetch_failure config step st log w1 e w2 :
  shouldRefresh config step (world st) = (Returned true, w1) ->
  refreshTools config w1 = (Thrown e, w2) ->
  onStepFinish config step st = (Thrown e, with_world w2 st)
  /\ tools (with_world w2 st) = tools st
  /\ pendingRefreshMessage (with_world w2 st) = pendingRefreshMessage st
  /\ onStepFinish (spy_config config) step (spied st log)
     = (Thrown e,
        spied (with_world w2 st)
              (log ++ [CalledShouldRefresh step; CalledRefreshTools])).
Proof.
  intros H1 H2. split; [|split; [done|split; [done|]]].
  - by apply onStepFinish_fetch_failure with w1.
  - rewrite (onStepFinish_fetch_failure (spy_config config) step
               (spied st log) (w1, log ++ [CalledShouldRefresh step]) e
               (w2, log ++ [CalledShouldRefresh step; CalledRefreshTools])).
    + done.
    + simpl. by apply spy_run.
    + simpl. rewrite (spy_run _ _ _ _ _ _ H2). by rewrite <- app_assoc.
Qed.

(** X14 (observer failure, lines 53-62).  When [onRefresh], called with
    the names of the swapped registry, throws [e], [onStepFinish] throws
    [e].  At that point the swap is done: the registry has the
    properties of the replacement other than [__proto__], hence exactly
    the names and values of a replacement that has no [__proto__]; the
    pending notification is the one before the call, and, spied on, the
    last call recorded is the one to [onRefresh]: the [refreshMessage]
    function was not called and nothing was armed. *)
Theorem observer_failure config step st log w1 r w2 f e w3 :
  shouldRefresh config step (world st) = (Returned true, w1) ->
  refreshTools config w1 = (Returned r, w2) ->
  wf_ref r ->
  onRefresh config = Some f ->
  f (JsObject.keys (replaced r)) w2 = (Thrown e, w3) ->
  let st' := {| tools := replaced r;
                pendingRefreshMessage := pendingRefreshMessage st;
                world := w3 |} in
  onStepFinish config step st = (Thrown e, st')
  /\ onStepFinish (spy_config config) step (spied st log)
     = (Thrown e,
        spied st' (log ++ [CalledShouldRefresh step; CalledRefreshTools;
                           CalledOnRefresh (JsObject.keys (replaced r))]))
  /\ (forall o, r = OtherObject o ->
        "__proto__" ∉ o.*1 ->
        JsObject.keys (tools st') = JsObject.keys o
        /\ forall k, JsObject.get k (tools st') = JsObject.get k o)
  /\ (forall o, r = OtherObject o ->
        JsObject.keys (tools st')
        = filter (fun k => k <> "__proto__") (JsObject.keys o)
        /\ forall k, JsObject.get k (tools st')
                     = if decide (k = "__proto__") then None
                       else JsObject.get k o).
Proof.
  intros H1 H2 Hwf Hf Hthrow st'. split; [|split; [|split]].
  - rewrite (onStepFinish_swap config step st w1 r w2 H1 H2).
    by rewrite (announce_observer_failure _ _ f e w3).
  - rewrite (onStepFinish_spied_swap config step st log w1 r w2 H1 H2).
    rewrite (announce_spied_observer_failure _ _ _ f e w3) by done.
    simpl. by rewrite <- app_assoc.
  - intros o -> Hproto. by apply replaced_other_whole.
  - intros o ->. by apply replaced_other.
Qed.

(** C7, amended (observer correctness).  On a triggered refresh with
    [onRefresh] configured, [onRefresh] is called exactly once: spied on,
    the calls recorded are [shouldRefresh], [refreshTools], [onRefresh]
    and then at most the [refreshMessage] function.  Its argument is the
    list of the names of the registry after the swap, as [Object.keys]
    lists them.  For a replacement that has no own property
    [__proto__], that is the list [Object.keys] gives for the
    replacement: the names that are array indices first, in ascending
    numeric order, then the other names in the order in which the
    replacement got them; when no name of the replacement is an array
    index, that is the replacement's insertion order. *)
Theorem observer_called_once config step st log w1 r w2 f :
  shouldRefresh config step (world st) = (Returned true, w1) ->
  refreshTools config w1 = (Returned r, w2) ->
  wf_ref r ->
  onRefresh config = Some f ->
  let st' := (onStepFinish (spy_config config) step (spied st log)).2 in
  let names := JsObject.keys (tools st') in
  (exists rest,
      (world st').2
      = log ++ [CalledShouldRefresh step; CalledRefreshTools;
                CalledOnRefresh names] ++ rest
      /\ (rest = [] \/ rest = [CalledRefreshMessage names]))
  /\ (forall o, r = OtherObject o ->
        "__proto__" ∉ o.*1 ->
        names = JsObject.keys o
        /\ names = JsObject.order_keys (o.*1)
        /\ Sorted JsObject.index_le
             (filter (fun k => JsObject.is_array_index k = true) names)
        /\ filter (fun k => JsObject.is_array_index k = false) names
           = filter (fun k => JsObject.is_array_index k = false) (o.*1)
        /\ (Forall (fun k => JsObject.is_array_index k = false) (o.*1) ->
            names = o.*1)).
Proof.
  intros H1 H2 Hwf Hf st' names. subst names st'.
  rewrite (onStepFinish_spied_swap config step st log w1 r w2 H1 H2).
  set (swapped := spied _ _).
  assert (Htools : tools (announce (spy_config config) swapped).2 = replaced r)
    by (by rewrite announce_tools).
  rewrite Htools. split.
  - destruct (announce_spied_observer config
                (with_tools (replaced r) (with_world w2 st))
                (log ++ [CalledShouldRefresh step; CalledRefreshTools]) f Hf)
      as (rest & Hlog & Hrest).
    exists rest. split; [|done]. subst swapped.
    rewrite Hlog. by rewrite <- app_assoc.
  - intros o -> Hproto. destruct (replaced_other_whole o Hwf Hproto) as [Hk _].
    rewrite Hk. unfold JsObject.keys, JsObject.ownKeys.
    split; [done|]. split; [done|]. split; [|split].
    + apply JsObjectFacts.order_keys_index_sorted.
    + apply JsObjectFacts.order_keys_others.
    + apply JsObjectFacts.order_keys_no_index.
Qed.

(** C9 (last refresh wins).  The pending notification is one optional
    string.  After two triggered refreshes that complete, with no
    [prepareStep] call in between, what is pending is the text the second
    refresh computed; the text of the first is gone.  The next
    [prepareStep] call delivers that one text, if it is not empty, and
    clears it. *)
Theorem last_refresh_wins config step1 step2 st0 w1 st1 w2 st2 :
  refreshMessage_truthy (refreshMessage config) = true ->
  shouldRefresh config step1 (world st0) = (Returned true, w1) ->
  onStepFinish config step1 st0 = (Returned tt, st1) ->
  shouldRefresh config step2 (world st1) = (Returned true, w2) ->
  onStepFinish config step2 st1 = (Returned tt, st2) ->
  exists text1 text2 w3,
    pendingRefreshMessage st1 = Some text1
    /\ pendingRefreshMessage st2 = Some text2
    /\ match refreshMessage config with
       | Some (MessageString s) => text2 = s
       | Some (MessageFunction g) =>
           g (JsObject.keys (tools st2)) w3 = (Returned text2, world st2)
       | None => False
       end
    /\ forall options,
         prepareStep (Err := Err) options st2
         = if truthy text2
           then (Returned
                   (Some {| override_messages :=
                              messages options
                              ++ [ {| role := user;
                                      content :=
                                        "[system: " +:+ text2 +:+ "]" |} ] |}),
                 with_pending None st2)
           else (Returned None, st2).
Proof.
  intros Htruthy H1 Hrun1 H2 Hrun2.
  destruct (refresh_arms config step1 st0 w1 st1 Htruthy H1 Hrun1)
    as (text1 & _ & Hp1 & _).
  destruct (refresh_arms config step2 st1 w2 st2 Htruthy H2 Hrun2)
    as (text2 & w3 & Hp2 & Hcomputed).
  exists text1, text2, w3. split; [done|]. split; [done|]. split.
  - destruct (refreshMessage config) as [[s|g]|]; [|done|done].
    by destruct Hcomputed.
  - intros options. unfold prepareStep. by rewrite Hp2.
Qed.

(** C10 (an empty notification is not delivered).  Take a triggered
    refresh that completes.  When [refreshMessage] is a function that
    returns the empty string for the names of the registry after the
    swap, the empty string is pending, and as long as it is, a
    [prepareStep] call returns no override and changes nothing.  When
    [refreshMessage] is the empty string, nothing is armed and the
    result has no hook: [prepareStep?.(options)] is no override.  Either
    way the answer is the one given when no refresh has occurred. *)
Theorem empty_notification_not_delivered config step st w1 st1 :
  shouldRefresh config step (world st) = (Returned true, w1) ->
  onStepFinish config step st = (Returned tt, st1) ->
  match refreshMessage config with
  | Some (MessageString s) => s = ""
  | Some (MessageFunction g) =>
      forall w, (g (JsObject.keys (tools st1)) w).1 = Returned ""
  | None => False
  end ->
  forall options,
    (forall st2,
       pendingRefreshMessage st2 = pendingRefreshMessage st1 ->
       call_prepareStep (dynamicTools config) options st2
       = (Returned None, st2))
    /\ (forall w,
          call_prepareStep (dynamicTools config) options (initial config w)
          = (Returned None, initial config w))
    /\ match refreshMessage config with
       | Some (MessageFunction _) =>
           pendingRefreshMessage st1 = Some ""
           /\ result_prepareStep (dynamicTools config) = Some prepareStep
       | _ =>
           pendingRefreshMessage st1 = pendingRefreshMessage st
           /\ result_prepareStep (dynamicTools config) = None
       end.
Proof.
  intros H1 Hrun Hempty options.
  destruct (refreshMessage config) as [[s|g]|] eqn:Hrm; [| |done].
  - subst s. unfold call_prepareStep, dynamicTools. simpl. rewrite Hrm. simpl.
    split; [done|]. split; [done|]. split; [|done].
    pose proof (onStepFinish_not_truthy config step st) as Hkeep.
    rewrite Hrun, Hrm in Hkeep. by apply Hkeep.
  - destruct (refresh_arms config step st w1 st1) as (text & w3 & Hp & Hg);
      [by rewrite Hrm|done|done|].
    rewrite Hrm in Hg. specialize (Hempty w3). rewrite Hg in Hempty.
    simpl in Hempty. injection Hempty as ->.
    unfold call_prepareStep, dynamicTools. simpl. rewrite Hrm. simpl.
    split; [|split; [|done]].
    + intros st2 Hsame. apply prepareStep_idle. right. by rewrite Hsame.
    + intros w. apply prepareStep_idle. by left.
Qed.

End Claims.

(** ** [composeStepHandlers] *)

Section Compose.

Context {Err : Type}.

Lemma compose_all_return {S} (handlers : list (StepResult -> Eff Err S unit))
    step s s' :
  AllReturn step handlers s s' ->
  composeStepHandlers handlers step s = (Returned tt, s').
Proof.
  induction 1 as [s|handler rest s s1 s2 Hh _ IH]; simpl; [done|].
  by rewrite (bind_returned _ _ _ _ _ Hh).
Qed.

Lemma compose_first_failure {S}
    (before : list (StepResult -> Eff Err S unit)) handler after
    step s s1 e s2 :
  AllReturn step before s s1 ->
  handler step s1 = (Thrown e, s2) ->
  composeStepHandlers (before ++ handler :: after) step s = (Thrown e, s2).
Proof.
  intros Hbefore Hthrow.
  induction Hbefore as [s|h rest s s' s1 Hh _ IH]; simpl.
  - by rewrite (bind_thrown _ _ _ _ _ Hthrow).
  - rewrite (bind_returned _ _ _ _ _ Hh). by apply IH.
Qed.

(** Either all handlers return, or there is a first one that throws. *)
Lemma handlers_cases {S} (handlers : list (StepResult -> Eff Err S unit))
    step s :
  (exists s', AllReturn step handlers s s')
  \/ (exists before handler after s1 e s2,
        handlers = before ++ handler :: after
        /\ AllReturn step before s s1
        /\ handler step s1 = (Thrown e, s2)).
Proof.
  revert s. induction handlers as [|h rest IH]; intros s.
  - left. exists s. constructor.
  - destruct (h step s) as [[[]|e] s1] eqn:Hh.
    + destruct (IH s1) as [[s' Hall]|(before & handler & after & s2 & e & s3
                                       & -> & Hall & Hthrow)].
      * left. exists s'. by econstructor.
      * right. exists (h :: before), handler, after, s2, e, s3.
        split; [done|]. split; [by econstructor|done].
    + right. exists [], h, rest, s, e, s1. split; [done|].
      split; [constructor|done].
Qed.

Context {World : Type}.

(** Spied handlers that all return: each call is recorded, in order. *)
Lemma spied_all_return (ix : nat -> nat)
    (handlers : list (StepResult -> Eff Err World unit)) step w w' log :
  AllReturn step handlers w w' ->
  AllReturn step
    (imap (fun i handler step => spy (CalledHandler (ix i) step) (handler step))
          handlers)
    (w, log)
    (w', log ++ ((fun i => CalledHandler (ix i) step) <$> seq 0 (length handlers))).
Proof.
  intros Hall. revert ix log.
  induction Hall as [w|handler rest w w1 w2 Hh _ IH]; intros ix log; simpl.
  - rewrite app_nil_r. constructor.
  - econstructor.
    + by apply spy_run.
    + specialize (IH (ix ∘ S) (log ++ [CalledHandler (ix 0) step])).
      rewrite <- app_assoc in IH. simpl in IH.
      by rewrite <- fmap_S_seq, <- list_fmap_compose.
Qed.

(** C8 (composer ordering and short-circuit).  With no handlers the
    composed handler returns and changes nothing.  The handlers are
    called in the order given, each on the state the one before left,
    all with the same step: when they all return, spied on, the calls
    recorded are handler 0, 1, ..., n-1 and the composed handler
    returns; when one throws [e] after those before it returned, the
    composed handler throws [e], the calls recorded stop at that
    handler, and the state is as it left it: no later handler is called.
    One of the two is always the case. *)
Theorem compose_in_order_short_circuit (step : StepResult) :
  (forall S (s : S), composeStepHandlers (Err := Err) [] step s = (Returned tt, s))
  /\ (forall (handlers : list (StepResult -> Eff Err World unit)) w w' log,
        AllReturn step handlers w w' ->
        composeStepHandlers handlers step w = (Returned tt, w')
        /\ composeStepHandlers (spy_handlers handlers) step (w, log)
           = (Returned tt,
              (w', log ++ handler_calls 0 (length handlers) step)))
  /\ (forall (before : list (StepResult -> Eff Err World unit)) handler after
             w w1 e w2 log,
        AllReturn step before w w1 ->
        handler step w1 = (Thrown e, w2) ->
        composeStepHandlers (before ++ handler :: after) step w = (Thrown e, w2)
        /\ composeStepHandlers (spy_handlers (before ++ handler :: after))
             step (w, log)
           = (Thrown e,
              (w2, log ++ handler_calls 0 (S (length before)) step)))
  /\ (forall (handlers : list (StepResult -> Eff Err World unit)) w,
        (exists w', AllReturn step handlers w w')
        \/ (exists before handler after w1 e w2,
              handlers = before ++ handler :: after
              /\ AllReturn step before w w1
              /\ handler step w1 = (Thrown e, w2))).
Proof.
  split; [done|]. split; [|split].
  - intros handlers w w' log Hall. split; [by apply compose_all_return|].
    apply compose_all_return. apply (spied_all_return id). done.
  - intros before handler after w w1 e w2 log Hall Hthrow.
    split; [by apply compose_first_failure with w1|].
    unfold spy_handlers. rewrite imap_app. simpl.
    apply compose_first_failure
      with (s1 := (w1, log ++ handler_calls 0 (length before) step)).
    + apply (spied_all_return id). done.
    + rewrite (spy_run _ _ _ _ _ _ Hthrow). rewrite <- app_assoc.
      unfold handler_calls. rewrite seq_S, fmap_app. simpl.
      by rewrite Nat.add_0_r.
  - intros handlers w. apply handlers_cases.
Qed.

End Compose.

(** * Further properties of the code *)

Section MoreFacts.

Context {Tool World Err : Type}.
Implicit Types (config : DynamicToolsConfig Tool World Err).
Implicit Types (st : Closure Tool World).

Lemma onStepFinish_predicate_failure config step st e w1 :
  shouldRefresh config step (world st) = (Thrown e, w1) ->
  onStepFinish config step st = (Thrown e, with_world w1 st).
Proof.
  intros H. unfold onStepFinish.
  by rewrite (bind_thrown _ _ _ _ _ (call_run _ _ _ _ H)).
Qed.

Lemma announce_pending config st :
  let out := announce config st in
  (forall e, out.1 = Thrown e ->
             pendingRefreshMessage out.2 = pendingRefreshMessage st)
  /\ (pendingRefreshMessage out.2 = None -> pendingRefreshMessage st = None)
  /\ (pendingRefreshMessage out.2 = pendingRefreshMessage st
      \/ exists text, pendingRefreshMessage out.2 = Some text).
Proof.
  unfold announce, bind, call, set_pendingRefreshMessage, ret. simpl.
  destruct (onRefresh config) as [f|]; simpl.
  - destruct (f (JsObject.keys (tools st)) (world st)) as [[[]|e] w]; simpl;
      [|by eauto].
    destruct (refreshMessage config) as [[s|g]|]; simpl; [| |by eauto].
    + destruct (truthy s); simpl; repeat split; try done; eauto.
    + destruct (g (JsObject.keys (tools st)) w) as [[text|e] w']; simpl;
        repeat split; try done; eauto.
  - destruct (refreshMessage config) as [[s|g]|]; simpl; [| |by eauto].
    + destruct (truthy s); simpl; repeat split; try done; eauto.
    + destruct (g (JsObject.keys (tools st)) (world st)) as [[text|e] w'];
        simpl; repeat split; try done; eauto.
Qed.

End MoreFacts.

Section MoreOnStepFinish.

Context {Tool World Err : Type}.
Implicit Types (config : DynamicToolsConfig Tool World Err).
Implicit Types (st : Closure Tool World) (log : list Call).
Implicit Types (r : ToolSetRef Tool).

(** X1 (predicate failure, lines 50-51).  When [shouldRefresh] throws
    [e], [onStepFinish] throws [e] and nothing else has happened: the
    registry and the pending notification are untouched, and, spied on,
    [shouldRefresh] is the only call recorded. *)
Theorem predicate_failure config step st log e w1 :
  shouldRefresh config step (world st) = (Thrown e, w1) ->
  onStepFinish config step st = (Thrown e, with_world w1 st)
  /\ onStepFinish (spy_config config) step (spied st log)
     = (Thrown e,
        spied (with_world w1 st) (log ++ [CalledShouldRefresh step])).
Proof.
  intros H. split; [by apply onStepFinish_predicate_failure|].
  rewrite (onStepFinish_predicate_failure (spy_config config) step
             (spied st log) e (w1, log ++ [CalledShouldRefresh step]));
    [done|].
  simpl. by apply spy_run.
Qed.

(** X3 (all or nothing, lines 50-59).  Whatever the caller's functions
    do, after [onStepFinish] the registry is either the one before the
    call or what clearing it and [Object.assign] make of the
    replacement; it is the latter exactly when [shouldRefresh] returned
    true and [refreshTools] returned.  What they make of a replacement
    is its properties other than [__proto__], as [Object.keys] lists
    them, with its values, and nothing of the old registry; of the
    registry itself, handed back as the replacement, nothing. *)
Theorem registry_all_or_nothing config step st :
  tools (onStepFinish config step st).2
  = match shouldRefresh config step (world st) with
    | (Returned true, w1) =>
        match refreshTools config w1 with
        | (Returned r, _) => replaced r
        | (Thrown _, _) => tools st
        end
    | _ => tools st
    end
  /\ replaced (Tool := Tool) TheRegistry = []
  /\ forall o : JsObject.t Tool,
       JsObject.wf o ->
       JsObject.keys (replaced (OtherObject o))
       = filter (fun k => k <> "__proto__") (JsObject.keys o)
       /\ forall k, JsObject.get k (replaced (OtherObject o))
                    = if decide (k = "__proto__") then None
                      else JsObject.get k o.
Proof.
  split; [|split; [done|apply replaced_other]].
  destruct (shouldRefresh config step (world st)) as [[[]|e] w1] eqn:H1.
  - destruct (refreshTools config w1) as [[r|e] w2] eqn:H2.
    + rewrite (onStepFinish_swap config step st w1 r w2 H1 H2).
      by rewrite announce_tools.
    + by rewrite (onStepFinish_fetch_failure config step st w1 e w2 H1 H2).
  - by rewrite (onStepFinish_skip config step st w1 H1).
  - by rewrite (onStepFinish_predicate_failure config step st e w1 H1).
Qed.

(** X4 (writes of the pending notification, lines 50-69).
    [onStepFinish] writes [pendingRefreshMessage] only on a triggered
    refresh that completes with a truthy [refreshMessage]: when it
    throws, whoever threw, when [shouldRefresh] does not return true,
    and when [refreshMessage] is absent or the empty string, what is
    pending is what was pending before.  When it does write, it
    overwrites whatever was pending with the text it computed, the
    empty text included. *)
Theorem pending_written_only_on_completion config step st :
  let out := onStepFinish config step st in
  (forall e, out.1 = Thrown e ->
             pendingRefreshMessage out.2 = pendingRefreshMessage st)
  /\ (refreshMessage_truthy (refreshMessage config) = false ->
      pendingRefreshMessage out.2 = pendingRefreshMessage st)
  /\ ((forall w1, shouldRefresh config step (world st) <> (Returned true, w1)) ->
      pendingRefreshMessage out.2 = pendingRefreshMessage st)
  /\ (forall w1,
        shouldRefresh config step (world st) = (Returned true, w1) ->
        refreshMessage_truthy (refreshMessage config) = true ->
        out.1 = Returned tt ->
        exists text w3,
          pendingRefreshMessage out.2 = Some text
          /\ match refreshMessage config with
             | Some (MessageString s) => text = s
             | Some (MessageFunction g) =>
                 g (JsObject.keys (tools out.2)) w3
                 = (Returned text, world out.2)
             | None => False
             end).
Proof.
  intros out. subst out. split; [|split; [|split]].
  - destruct (shouldRefresh config step (world st)) as [[[]|e] w1] eqn:H1.
    + destruct (refreshTools config w1) as [[r|e] w2] eqn:H2.
      * rewrite (onStepFinish_swap config step st w1 r w2 H1 H2).
        intros e He. by rewrite (proj1 (announce_pending config _) e He).
      * by rewrite (onStepFinish_fetch_failure config step st w1 e w2 H1 H2).
    + by rewrite (onStepFinish_skip config step st w1 H1).
    + by rewrite (onStepFinish_predicate_failure config step st e w1 H1).
  - apply onStepFinish_not_truthy.
  - intros Hnot.
    destruct (shouldRefresh config step (world st)) as [[[]|e] w1] eqn:H1.
    + by destruct (Hnot w1).
    + by rewrite (onStepFinish_skip config step st w1 H1).
    + by rewrite (onStepFinish_predicate_failure config step st e w1 H1).
  - intros w1 H1 Htruthy Hout.
    destruct (onStepFinish config step st) as [[[]|e] st1] eqn:Hrun; [|done].
    destruct (refresh_arms config step st w1 st1 Htruthy H1 Hrun)
      as (text & w3 & Hp & Hcomputed).
    exists text, w3. split; [done|]. simpl.
    destruct (refreshMessage config) as [[s|g]|]; [|done|done].
    by destruct Hcomputed.
Qed.

(** X5 (template failure, lines 64-69).  When the [refreshMessage]
    function throws [e], [onStepFinish] throws [e]; the swap is done,
    [onRefresh] has been called, and the pending notification is the one
    before the call. *)
Theorem template_failure config step st log w1 r w2 w3 g e w4 :
  shouldRefresh config step (world st) = (Returned true, w1) ->
  refreshTools config w1 = (Returned r, w2) ->
  let names := JsObject.keys (replaced r) in
  match onRefresh config with
  | Some f => f names w2 = (Returned tt, w3)
  | None => w3 = w2
  end ->
  refreshMessage config = Some (MessageFunction g) ->
  g names w3 = (Thrown e, w4) ->
  let st' := {| tools := replaced r;
                pendingRefreshMessage := pendingRefreshMessage st;
                world := w4 |} in
  onStepFinish config step st = (Thrown e, st')
  /\ onStepFinish (spy_config config) step (spied st log)
     = (Thrown e,
        spied st'
          (log ++ [CalledShouldRefresh step; CalledRefreshTools]
               ++ match onRefresh config with
                  | Some _ => [CalledOnRefresh names]
                  | None => []
                  end
               ++ [CalledRefreshMessage names])).
Proof.
  intros H1 H2 names Hobs Hrm Hthrow st'. subst names st'. split.
  - rewrite (onStepFinish_swap config step st w1 r w2 H1 H2).
    unfold announce, bind, call, set_pendingRefreshMessage, ret. simpl.
    rewrite Hrm. simpl.
    destruct (onRefresh config) as [f|]; simpl.
    + rewrite Hobs. simpl. by rewrite Hthrow.
    + subst w3. by rewrite Hthrow.
  - rewrite (onStepFinish_spied_swap config step st log w1 r w2 H1 H2).
    unfold announce, bind, call, set_pendingRefreshMessage, ret. simpl.
    rewrite Hrm. simpl.
    destruct (onRefresh config) as [f|]; simpl.
    + unfold spy. simpl. rewrite Hobs. simpl. rewrite Hthrow. simpl.
      by rewrite <- !app_assoc.
    + subst w3. unfold spy. simpl. rewrite Hthrow. simpl.
      by rewrite <- !app_assoc.
Qed.

(** X6 (a refresh that completes, lines 50-69).  When [shouldRefresh]
    returns true and [refreshTools], [onRefresh] and the
    [refreshMessage] function, where configured, return,
    [onStepFinish] returns.  The calls are, in this order:
    [shouldRefresh], [refreshTools], [onRefresh] when configured, the
    [refreshMessage] function when it is one; the last two get the same
    list, the names of the swapped registry, and each runs on the state
    the one before left.  A string, absent or empty [refreshMessage]
    calls nothing; absent or empty it leaves the pending notification
    as it was. *)
Theorem refresh_completes config step st log w1 r w2 w3 text w4 p :
  shouldRefresh config step (world st) = (Returned true, w1) ->
  refreshTools config w1 = (Returned r, w2) ->
  let names := JsObject.keys (replaced r) in
  match onRefresh config with
  | Some f => f names w2 = (Returned tt, w3)
  | None => w3 = w2
  end ->
  match refreshMessage config with
  | Some (MessageFunction g) =>
      g names w3 = (Returned text, w4) /\ p = Some text
  | Some (MessageString s) =>
      w4 = w3 /\ p = (if truthy s then Some s else pendingRefreshMessage st)
  | None => w4 = w3 /\ p = pendingRefreshMessage st
  end ->
  let st' := {| tools := replaced r;
                pendingRefreshMessage := p;
                world := w4 |} in
  onStepFinish config step st = (Returned tt, st')
  /\ onStepFinish (spy_config config) step (spied st log)
     = (Returned tt,
        spied st'
          (log ++ [CalledShouldRefresh step; CalledRefreshTools]
               ++ match onRefresh config with
                  | Some _ => [CalledOnRefresh names]
                  | None => []
                  end
               ++ match refreshMessage config with
                  | Some (MessageFunction _) => [CalledRefreshMessage names]
                  | _ => []
                  end)).
Proof.
  intros H1 H2 names Hobs Hrm st'. subst names st'. split.
  - rewrite (onStepFinish_swap config step st w1 r w2 H1 H2).
    unfold announce, bind, call, set_pendingRefreshMessage, ret. simpl.
    destruct (onRefresh config) as [f|]; simpl;
      [rewrite Hobs; simpl | subst w3];
      (destruct (refreshMessage config) as [[s|g]|]; simpl;
       [ destruct Hrm as [-> ->]; by destruct (truthy s)
       | destruct Hrm as [Hg ->]; by rewrite Hg
       | by destruct Hrm as [-> ->] ]).
  - rewrite (onStepFinish_spied_swap config step st log w1 r w2 H1 H2).
    unfold announce, bind, call, set_pendingRefreshMessage, ret. simpl.
    destruct (onRefresh config) as [f|]; simpl;
      [unfold spy at 1; simpl; rewrite Hobs; simpl | subst w3];
      (destruct (refreshMessage config) as [[s|g]|]; simpl;
       [ destruct Hrm as [-> ->]; destruct (truthy s); simpl;
         by rewrite <- ?app_assoc, ?app_nil_r
       | destruct Hrm as [Hg ->]; unfold spy; simpl; rewrite Hg; simpl;
         by rewrite <- ?app_assoc, ?app_nil_r
       | destruct Hrm as [-> ->]; by rewrite <- ?app_assoc, ?app_nil_r ]).
Qed.

(** X2 (the initial registry, line 47).  The closure starts with a copy
    of [config.tools]: the same names, as [Object.keys] lists them, with
    the same values; nothing is pending, so a [prepareStep] call before
    any [onStepFinish] returns no override and changes nothing. *)
Theorem initial_registry_copy config w :
  JsObject.wf (config_tools config) ->
  JsObject.keys (tools (initial config w))
  = JsObject.keys (config_tools config)
  /\ (forall k, JsObject.get k (tools (initial config w))
                = JsObject.get k (config_tools config))
  /\ JsObject.wf (tools (initial config w))
  /\ forall options,
       call_prepareStep (dynamicTools config) options (initial config w)
       = (Returned None, initial config w).
Proof.
  intros Hwf. simpl.
  destruct (JsObjectFacts.spread_spec _ Hwf) as (Hnames & Hkeys & Hget).
  split; [done|]. split; [done|]. split.
  - unfold JsObject.wf. rewrite Hnames.
    by apply JsObjectFacts.NoDup_ownKeys.
  - intros options. unfold call_prepareStep, dynamicTools. simpl.
    by destruct (refreshMessage_truthy (refreshMessage config)).
Qed.

(** X7 (one shot, lines 74-86).  In any state, [prepareStep] returns
    (it never throws), leaves the registry and the caller's state alone,
    and overrides only by appending one user message to the messages it
    was given; and of two calls in a row the second never overrides. *)
Theorem prepareStep_one_shot (options options' : PrepareStepOptions) st :
  let first := prepareStep (Err := Err) options st in
  tools first.2 = tools st
  /\ world first.2 = world st
  /\ (first = (Returned None, st)
      \/ exists text,
           pendingRefreshMessage st = Some text /\ text <> ""
           /\ first
              = (Returned
                   (Some {| override_messages :=
                              messages options
                              ++ [ {| role := user;
                                      content :=
                                        "[system: " +:+ text +:+ "]" |} ] |}),
                 with_pending None st))
  /\ prepareStep (Err := Err) options' first.2 = (Returned None, first.2).
Proof.
  intros first. subst first. unfold prepareStep.
  destruct (pendingRefreshMessage st) as [text|] eqn:Hp.
  - destruct (truthy text) eqn:Ht; simpl.
    + apply truthy_true in Ht. split; [done|]. split; [done|]. split; [|done].
      right. by exists text.
    + rewrite Hp, Ht. split; [done|]. split; [done|]. split; [by left|done].
  - simpl. rewrite Hp. split; [done|]. split; [done|]. split; [by left|done].
Qed.

End MoreOnStepFinish.

Section MoreCompose.

Context {Err : Type}.

Lemma bind_ret_tt {S} (c : Eff Err S unit) s : (c ;;; ret tt) s = c s.
Proof. unfold bind, ret. by destruct (c s) as [[[]|e] s']. Qed.

Lemma bind_assoc {S A B C} (c : Eff Err S A) (k1 : A -> Eff Err S B)
    (k2 : B -> Eff Err S C) s :
  bind (bind c k1) k2 s = bind c (fun a => bind (k1 a) k2) s.
Proof. unfold bind. by destruct (c s) as [[a|e] s']. Qed.

Lemma compose_app {S} (first second : list (StepResult -> Eff Err S unit))
    step s :
  composeStepHandlers (first ++ second) step s
  = (composeStepHandlers first step ;;; composeStepHandlers second step) s.
Proof.
  revert s. induction first as [|h first IH]; intros s; simpl; [done|].
  rewrite bind_assoc.
  destruct (h step s) as [[[]|e] s1] eqn:Hh.
  - rewrite !(bind_returned _ _ _ _ _ Hh). apply IH.
  - by rewrite !(bind_thrown _ _ _ _ _ Hh).
Qed.

(** X10 (composing composed handlers, compose.ts lines 22-30).  A
    composed handler is a handler: composing two composed handlers is
    the same as composing all their handlers in one list, which runs the
    first list and, when it returns, the second on the state it left;
    and composing a single handler gives a handler that does what that
    one does. *)
Theorem compose_flattens {S} (first second : list (StepResult -> Eff Err S unit))
    (h : StepResult -> Eff Err S unit) step s :
  composeStepHandlers [composeStepHandlers first; composeStepHandlers second]
    step s
  = composeStepHandlers (first ++ second) step s
  /\ composeStepHandlers (first ++ second) step s
     = match composeStepHandlers first step s with
       | (Returned _, s1) => composeStepHandlers second step s1
       | (Thrown e, s1) => (Thrown e, s1)
       end
  /\ composeStepHandlers [h] step s = h step s.
Proof.
  split; [|split].
  - rewrite compose_app. simpl.
    destruct (composeStepHandlers first step s) as [[[]|e] s1] eqn:Hfirst.
    + rewrite !(bind_returned _ _ _ _ _ Hfirst). apply bind_ret_tt.
    + by rewrite !(bind_thrown _ _ _ _ _ Hfirst).
  - by rewrite compose_app.
  - simpl. apply bind_ret_tt.
Qed.

Context {Tool World : Type}.

(** X11 (composing with the refresh handler, as in the README).  Put
    after [onStepFinish], a handler of the caller does not change what
    the refresh does to the registry and to the pending notification,
    and it is not called when [onStepFinish] throws.  Put before
    [onStepFinish], a handler that throws prevents the refresh: the
    registry and the pending notification are untouched and, spied on,
    [shouldRefresh] is not called. *)
Theorem compose_with_refresh (config : DynamicToolsConfig Tool World Err)
    (h : StepResult -> Eff Err World unit) step (st : Closure Tool World) :
  let alone := onStepFinish config step st in
  let after := composeStepHandlers [onStepFinish config; user_handler h] step st in
  tools after.2 = tools alone.2
  /\ pendingRefreshMessage after.2 = pendingRefreshMessage alone.2
  /\ (forall e, alone.1 = Thrown e -> after = alone)
  /\ (alone.1 = Returned tt ->
      after = (let (out, w) := h step (world alone.2) in
               (out, with_world w alone.2)))
  /\ (forall e w1 log,
        h step (world st) = (Thrown e, w1) ->
        composeStepHandlers [user_handler h; onStepFinish config] step st
        = (Thrown e, with_world w1 st)
        /\ composeStepHandlers
             [user_handler (fun step => spy (CalledHandler 0 step) (h step));
              onStepFinish (spy_config config)]
             step (spied st log)
           = (Thrown e, spied (with_world w1 st) (log ++ [CalledHandler 0 step]))).
Proof.
  intros alone after. subst alone after. simpl.
  assert (Hbefore : forall e w1 log,
    h step (world st) = (Thrown e, w1) ->
    (user_handler h step ;;; onStepFinish config step ;;; ret ()) st
    = (Thrown e, with_world w1 st)
    /\ (user_handler (fun step => spy (CalledHandler 0 step) (h step)) step ;;;
        onStepFinish (spy_config config) step ;;; ret ()) (spied st log)
       = (Thrown e, spied (with_world w1 st) (log ++ [CalledHandler 0 step]))).
  { intros e w1 log Hthrow. split.
    - apply bind_thrown. by apply call_run.
    - apply bind_thrown.
      apply (call_run _ (spied st log) _ (w1, log ++ [CalledHandler 0 step])).
      simpl. by apply spy_run. }
  destruct (onStepFinish config step st) as [[[]|e] st1] eqn:Hrun.
  - rewrite (bind_returned _ _ _ _ _ Hrun), bind_ret_tt.
    unfold user_handler, call. simpl.
    by destruct (h step (world st1)) as [out w].
  - rewrite (bind_thrown _ _ _ _ _ Hrun). simpl. done.
Qed.

End MoreCompose.

Section MoreRuns.

Context {Tool World Err : Type}.
Implicit Types (config : DynamicToolsConfig Tool World Err).
Implicit Types (st : Closure Tool World).
Implicit Types (sst : Closure Tool (World * list Call)).

Lemma refreshTools_calls_app (l1 l2 : list Call) :
  refreshTools_calls (l1 ++ l2) = refreshTools_calls l1 + refreshTools_calls l2.
Proof. unfold refreshTools_calls. by rewrite List.filter_app, length_app. Qed.

Lemma armed_le_1 {W} (st : Closure Tool W) : armed st <= 1.
Proof.
  unfold armed. destruct (pendingRefreshMessage st) as [text|]; [|lia].
  destruct (truthy text); lia.
Qed.

Lemma overrides_cons (o : option PrepareStepResult) outs :
  overrides (o :: outs)
  = (match o with Some _ => 1 | None => 0 end) + overrides outs.
Proof. unfold overrides. by destruct o. Qed.

(** Lines 61-69, spied on, only add to the log. *)
Lemma announce_spied_extends config st log :
  exists rest,
    (world (announce (spy_config config) (spied st log)).2).2 = log ++ rest.
Proof.
  unfold announce, bind, call, set_pendingRefreshMessage, ret. simpl.
  destruct (onRefresh config) as [f|]; simpl.
  - unfold spy at 1. simpl.
    destruct (f (JsObject.keys (tools st)) (world st)) as [[[]|e] w]; simpl;
      [|by eauto].
    destruct (refreshMessage config) as [[s|g]|]; simpl; [| |by eauto].
    + destruct (truthy s); simpl; eauto.
    + unfold spy. simpl.
      destruct (g (JsObject.keys (tools st)) w) as [[text|e] w']; simpl;
        rewrite <- app_assoc; eauto.
  - destruct (refreshMessage config) as [[s|g]|]; simpl;
      [| |by exists []; rewrite app_nil_r].
    + destruct (truthy s); simpl; by exists []; rewrite app_nil_r.
    + unfold spy. simpl.
      destruct (g (JsObject.keys (tools st)) (world st)) as [[text|e] w'];
        simpl; eauto.
Qed.

(** One [onStepFinish] call, spied on: the log grows, and a notification
    can only become pending when [refreshTools] was called. *)
Lemma onStepFinish_spied_armed config step sst :
  let sst' := (onStepFinish (spy_config config) step sst).2 in
  exists new,
    (world sst').2 = (world sst).2 ++ new
    /\ armed sst' <= armed sst + refreshTools_calls new.
Proof.
  destruct sst as [registry pending [w log]].
  set (st := {| tools := registry; pendingRefreshMessage := pending;
                world := w |}).
  change {| tools := registry; pendingRefreshMessage := pending;
            world := (w, log) |} with (spied st log).
  simpl.
  destruct (shouldRefresh config step w) as [[[]|e] w1] eqn:H1.
  - destruct (refreshTools config w1) as [[r|e] w2] eqn:H2.
    + rewrite (onStepFinish_spied_swap config step st log w1 r w2 H1 H2).
      destruct (announce_spied_extends config
                  (with_tools (replaced r) (with_world w2 st))
                  (log ++ [CalledShouldRefresh step; CalledRefreshTools]))
        as [rest Hrest].
      exists ([CalledShouldRefresh step; CalledRefreshTools] ++ rest).
      split; [by rewrite Hrest, <- app_assoc|].
      rewrite refreshTools_calls_app.
      pose proof (armed_le_1
                    (announce (spy_config config)
                       (spied (with_tools (replaced r) (with_world w2 st))
                          (log ++ [CalledShouldRefresh step;
                                   CalledRefreshTools]))).2).
      change (refreshTools_calls [CalledShouldRefresh step; CalledRefreshTools])
        with 1.
      lia.
    + destruct (refresh_fetch_failure config step st log w1 e w2 H1 H2)
        as (_ & _ & _ & ->).
      exists [CalledShouldRefresh step; CalledRefreshTools]. simpl.
      split; [done|]. unfold armed. simpl. lia.
  - destruct (skip_purity config step st log w1 H1) as (-> & _).
    exists [CalledShouldRefresh step]. simpl.
    split; [done|]. unfold armed. simpl. lia.
  - destruct (predicate_failure config step st log e w1 H1) as (_ & ->).
    exists [CalledShouldRefresh step]. simpl.
    split; [done|]. unfold armed. simpl. lia.
Qed.

(** One [prepareStep?.(options)] call: an override uses up what was
    pending. *)
Lemma call_prepareStep_armed {W} (config : DynamicToolsConfig Tool W Err)
    options (st : Closure Tool W) :
  exists o (after : Closure Tool W),
    call_prepareStep (dynamicTools config) options st = (Returned o, after)
    /\ world after = world st
    /\ tools after = tools st
    /\ (match o with Some _ => 1 | None => 0 end) + armed after <= armed st
    /\ (armed st = 0 -> o = None /\ after = st).
Proof.
  unfold call_prepareStep, dynamicTools. simpl.
  destruct (refreshMessage_truthy (refreshMessage config)).
  - unfold prepareStep, armed.
    destruct (pendingRefreshMessage st) as [text|] eqn:Hp.
    + destruct (truthy text) eqn:Ht.
      * eexists _, _. split; [done|]. simpl.
        repeat split; try lia; intros; lia.
      * eexists _, _. split; [done|]. rewrite Hp, Ht. repeat split; lia.
    + eexists _, _. split; [done|]. rewrite Hp. repeat split; lia.
  - eexists _, _. split; [done|]. repeat split; lia.
Qed.

Lemma run_bounded config calls sst :
  let out := run (spy_config config) calls sst in
  exists new,
    (world out.2).2 = (world sst).2 ++ new
    /\ overrides out.1 + armed out.2 <= armed sst + refreshTools_calls new.
Proof.
  revert sst. induction calls as [|[step|options] calls IH]; intros sst; simpl.
  - exists []. rewrite app_nil_r. split; [done|].
    unfold overrides, refreshTools_calls. simpl. lia.
  - destruct (onStepFinish_spied_armed config step sst) as (new1 & Hlog1 & Harmed1).
    destruct (IH (onStepFinish (spy_config config) step sst).2)
      as (new2 & Hlog2 & Harmed2).
    exists (new1 ++ new2). simpl in *. split.
    + by rewrite Hlog2, Hlog1, <- app_assoc.
    + rewrite refreshTools_calls_app. lia.
  - destruct (call_prepareStep_armed (spy_config config) options sst)
      as (o & sst1 & Hcall & Hworld & _ & Harmed & _).
    rewrite Hcall.
    destruct (IH sst1) as (new & Hlog & Hbound).
    destruct (run (spy_config config) calls sst1) as [outs sst2]. simpl in *.
    exists new. split; [by rewrite Hlog, Hworld|].
    rewrite overrides_cons. lia.
Qed.

(** X8 (no more notifications than refreshes).  For any sequence of
    [onStepFinish] and [prepareStep] calls, in any order and whatever
    the caller's functions do, starting with nothing pending: the number
    of [prepareStep] calls that return an override is at most the number
    of [refreshTools] calls made. *)
Theorem notifications_bounded_by_refreshes config calls st log :
  armed st = 0 ->
  let out := run (spy_config config) calls (spied st log) in
  exists new,
    (world out.2).2 = log ++ new
    /\ overrides out.1 <= refreshTools_calls new.
Proof.
  intros Hidle out. subst out.
  destruct (run_bounded config calls (spied st log)) as (new & Hlog & Hbound).
  exists new. split; [done|].
  change (armed (spied st log)) with (armed st) in Hbound. lia.
Qed.

(** X9 (no refresh, no change).  For any sequence of [onStepFinish]
    and [prepareStep] calls in which [shouldRefresh] returns false for
    every step, starting with nothing deliverable pending: no
    [prepareStep] call returns an override, and the registry and the
    pending notification end as they started. *)
Theorem no_refresh_no_change config calls st :
  armed st = 0 ->
  (forall step w, Finish step ∈ calls ->
                  (shouldRefresh config step w).1 = Returned false) ->
  let out := run config calls st in
  Forall (fun o => o = None) out.1
  /\ tools out.2 = tools st
  /\ pendingRefreshMessage out.2 = pendingRefreshMessage st.
Proof.
  revert st. induction calls as [|[step|options] calls IH];
    intros st Hidle Hskip; simpl.
  - done.
  - assert (Hstep : exists w1, shouldRefresh config step (world st)
                               = (Returned false, w1)).
    { specialize (Hskip step (world st) (list_elem_of_here _ _)).
      destruct (shouldRefresh config step (world st)) as [out w1].
      simpl in Hskip. subst out. by exists w1. }
    destruct Hstep as [w1 Hstep].
    rewrite (onStepFinish_skip config step st w1 Hstep).
    apply (IH (with_world w1 st)); [done|].
    intros step' w Hin. apply Hskip. by right.
  - destruct (call_prepareStep_armed config options st)
      as (o & st1 & Hcall & _ & _ & _ & Hnone).
    rewrite Hcall. destruct (Hnone Hidle) as [-> ->].
    destruct (IH st Hidle) as (Hall & Htools & Hpending).
    { intros step' w Hin. apply Hskip. by right. }
    destruct (run config calls st) as [outs st2]. simpl in *.
    split; [by constructor|done].
Qed.

End MoreRuns.

(** ** The demo *)

(** X12 (demos/getWeather.ts, lines 39-47).  In the demo, for every
    step and every state: a step without a call to [login] changes
    nothing; a step with one replaces the registry by exactly
    [getLocation] and [getWeather] ([login] is gone), writes one line to
    the console, and arms the message that the next [prepareStep] call
    appends for the model. *)
Theorem demo_login_unlocks (step : StepResult)
    (st : Closure Demo.DemoTool (list string)) options :
  let logged_in :=
    existsb (fun tc => String.eqb (toolName tc) "login") (toolCalls step) in
  let st' :=
    {| tools := Demo.featureTools;
       pendingRefreshMessage :=
         Some "Your tools have been updated after login. Available tools: getLocation, getWeather. Use them to answer the user's question.";
       world :=
         world st
         ++ ["[dynamicTools] refreshed → getLocation, getWeather"] |} in
  onStepFinish Demo.config step st
  = (Returned tt, if logged_in then st' else st)
  /\ JsObject.keys (tools st') = ["getLocation"; "getWeather"]
  /\ call_prepareStep (dynamicTools Demo.config) options st'
     = (Returned
          (Some {| override_messages :=
                     messages options
                     ++ [ {| role := user;
                             content :=
                               "[system: Your tools have been updated after login. Available tools: getLocation, getWeather. Use them to answer the user's question.]" |} ] |}),
        with_pending None st').
Proof.
  intros logged_in st'. split; [|split; reflexivity].
  destruct logged_in eqn:Hlogin; subst logged_in.
  - destruct (refresh_completes Demo.config step st [] (world st)
                (OtherObject Demo.featureTools) (world st)
                (world st
                 ++ ["[dynamicTools] refreshed → getLocation, getWeather"])
                "Your tools have been updated after login. Available tools: getLocation, getWeather. Use them to answer the user's question."
                (world st
                 ++ ["[dynamicTools] refreshed → getLocation, getWeather"])
                (Some "Your tools have been updated after login. Available tools: getLocation, getWeather. Use them to answer the user's question."))
      as [Hrun _];
      [ simpl; unfold ret; by rewrite Hlogin
      | reflexivity | reflexivity | split; reflexivity
      | exact Hrun ].
  - rewrite (onStepFinish_skip Demo.config step st (world st)).
    + by destruct st.
    + simpl. unfold ret. by rewrite Hlogin.
Qed.

(** * The claims on the configurations of the tests *)

Import Examples.

(** A decidable fact about concrete data, by evaluation. *)
Ltac by_evaluation := apply (bool_decide_unpack _); vm_compute; exact I.

(** [{old}] becomes [{alpha, beta, gamma}]. *)
Lemma total_replacement_witness :
  let st' := (onStepFinish plain_config load_skill (initial plain_config 0)).2 in
  JsObject.keys (tools st') = ["alpha"; "beta"; "gamma"]
  /\ "old" ∉ JsObject.keys (tools st').
Proof.
  destruct (total_replacement plain_config load_skill (initial plain_config 0)
              0 alpha_beta_gamma 1 eq_refl eq_refl)
    as (Hwhole & _).
  { by_evaluation. }
  destruct (Hwhole _ eq_refl) as [Hkeys _].
  { by_evaluation. }
  split.
  - exact Hkeys.
  - rewrite Hkeys. by_evaluation.
Defined.

(** A step that does not call [load-skill] changes nothing and calls
    nothing but [shouldRefresh]. *)
Lemma skip_purity_witness :
  shouldRefresh plain_config other_step 0 = (Returned false, 0)
  /\ onStepFinish (spy_config plain_config) other_step
       (spied (initial plain_config 0) [])
     = (Returned tt,
        spied (initial plain_config 0) [CalledShouldRefresh other_step]).
Proof.
  split; [reflexivity|].
  apply (skip_purity plain_config other_step (initial plain_config 0) [] 0).
  reflexivity.
Defined.

(** [refreshMessage: "Updated!"]: delivered once, after the messages. *)
Lemma one_shot_notification_witness :
  let st1 := (onStepFinish static_config load_skill (initial static_config 0)).2 in
  prepareStep (Err := string) hello st1
  = (Returned
       (Some {| override_messages :=
                  [ {| role := user; content := "hello" |};
                    {| role := user; content := "[system: Updated!]" |} ] |}),
     with_pending None st1)
  /\ prepareStep (Err := string) hello (with_pending None st1)
     = (Returned None, with_pending None st1).
Proof.
  intros st1.
  destruct (one_shot_notification static_config load_skill
              (initial static_config 0) 0 st1 eq_refl eq_refl eq_refl)
    as (text & w3 & hook & Hpending & _ & Hhook & Hdeliver & _ & Hidle).
  injection Hpending as <-. injection Hhook as <-.
  split.
  - apply (Hdeliver ltac:(discriminate) st1 hello). reflexivity.
  - apply Hidle. reflexivity.
Defined.

(** [refreshTools] rejects: the registry still has [old]. *)
Lemma refresh_fetch_failure_witness :
  onStepFinish failing_fetch_config load_skill (initial failing_fetch_config 0)
  = (Thrown "fetch failed", with_world 1 (initial failing_fetch_config 0))
  /\ JsObject.keys (tools (with_world 1 (initial failing_fetch_config 0)))
     = ["old"].
Proof.
  split; [|reflexivity].
  apply (refresh_fetch_failure failing_fetch_config load_skill
           (initial failing_fetch_config 0) [] 0 "fetch failed" 1);
    reflexivity.
Defined.

(** [onRefresh] throws: the registry is swapped, nothing is pending. *)
Lemma observer_failure_witness :
  onStepFinish failing_observer_config load_skill
    (initial failing_observer_config 0)
  = (Thrown "observer failed",
     {| tools := replaced alpha_beta_gamma;
        pendingRefreshMessage := None;
        world := 1 |})
  /\ JsObject.keys (replaced alpha_beta_gamma) = ["alpha"; "beta"; "gamma"].
Proof.
  split; [|reflexivity].
  apply (observer_failure failing_observer_config load_skill
           (initial failing_observer_config 0) [] 0 alpha_beta_gamma 1
           (fun _ w => (Thrown "observer failed", w)) "observer failed" 1);
    try reflexivity.
  by_evaluation.
Defined.

(** [onRefresh] is called once, with [alpha, beta, gamma]. *)
Lemma observer_called_once_witness :
  exists rest,
    (world (onStepFinish (spy_config observed_config) load_skill
              (spied (initial observed_config 0) [])).2).2
    = [CalledShouldRefresh load_skill; CalledRefreshTools;
       CalledOnRefresh ["alpha"; "beta"; "gamma"]] ++ rest
    /\ (rest = [] \/ rest = [CalledRefreshMessage ["alpha"; "beta"; "gamma"]]).
Proof.
  destruct (observer_called_once observed_config load_skill
              (initial observed_config 0) [] 0 alpha_beta_gamma 1
              (fun _ w => (Returned tt, w)) eq_refl eq_refl)
    as ((rest & Hlog & Hrest) & _); [|reflexivity|].
  { by_evaluation. }
  exists rest. split; [exact Hlog | exact Hrest].
Defined.

(** [compose(counting, throwing, counting)]: the third handler is not
    called. *)
Lemma compose_in_order_short_circuit_witness :
  composeStepHandlers (spy_handlers [counting; throwing; counting])
    load_skill (0, [])
  = (Thrown "handler failed",
     (1, [CalledHandler 0 load_skill; CalledHandler 1 load_skill]))
  /\ composeStepHandlers (spy_handlers [counting; counting]) load_skill (0, [])
     = (Returned tt,
        (2, [CalledHandler 0 load_skill; CalledHandler 1 load_skill])).
Proof.
  destruct (compose_in_order_short_circuit (Err := string) (World := nat)
              load_skill) as (_ & Hall & Hfail & _).
  split.
  - apply (Hfail [counting] throwing [counting] 0 1 "handler failed" 1 []).
    + econstructor; [reflexivity | constructor].
    + reflexivity.
  - apply (Hall [counting; counting] 0 2 []).
    econstructor; [reflexivity|]. econstructor; [reflexivity | constructor].
Defined.

(** Two refreshes in a row: only the text of the second is pending, and
    it is the one delivered. *)
Lemma last_refresh_wins_witness :
  let st0 := initial sequential_config 0 in
  let st1 := (onStepFinish sequential_config load_skill st0).2 in
  let st2 := (onStepFinish sequential_config load_skill st1).2 in
  pendingRefreshMessage st1 = Some "Tools refreshed. Now available: tool-1"
  /\ pendingRefreshMessage st2 = Some "Tools refreshed. Now available: tool-2"
  /\ prepareStep (Err := string) hello st2
     = (Returned
          (Some {| override_messages :=
                     [ {| role := user; content := "hello" |};
                       {| role := user;
                          content :=
                            "[system: Tools refreshed. Now available: tool-2]" |} ] |}),
        with_pending None st2).
Proof.
  intros st0 st1 st2.
  destruct (last_refresh_wins sequential_config load_skill load_skill
              st0 0 st1 1 st2 eq_refl eq_refl eq_refl eq_refl eq_refl)
    as (text1 & text2 & w3 & H1 & H2 & _ & Hdeliver).
  split; [reflexivity|]. split; [reflexivity|].
  injection H2 as <-. apply (Hdeliver hello).
Defined.

(** [refreshMessage: () => ""]: the hook is there and delivers nothing. *)
Lemma empty_notification_not_delivered_witness :
  let st1 := (onStepFinish empty_function_config load_skill
                (initial empty_function_config 0)).2 in
  pendingRefreshMessage st1 = Some ""
  /\ call_prepareStep (dynamicTools empty_function_config) hello st1
     = (Returned None, st1).
Proof.
  intros st1.
  destruct (empty_notification_not_delivered empty_function_config load_skill
              (initial empty_function_config 0) 0 st1 eq_refl eq_refl
              (fun _ => eq_refl) hello)
    as (Hcall & _ & Hpending & _).
  split; [exact Hpending | exact (Hcall st1 eq_refl)].
Defined.

(** ** Where the claims as first stated fail *)

(** C3 as stated: a template is configured and a refresh is triggered
    and completes, yet the next [prepareStep] call returns no override:
    the template returned the empty string. *)
Lemma one_shot_notification_counterexample :
  let config := empty_function_config in
  let st1 := (onStepFinish config load_skill (initial config 0)).2 in
  is_Some (refreshMessage config)
  /\ shouldRefresh config load_skill 0 = (Returned true, 0)
  /\ onStepFinish config load_skill (initial config 0) = (Returned tt, st1)
  /\ result_prepareStep (dynamicTools config) = Some prepareStep
  /\ prepareStep (Err := string) hello st1 = (Returned None, st1).
Proof. repeat split; try reflexivity. by eexists. Qed.

(** C4 as stated: [refreshMessage] is present, it is the empty string,
    and the result has no [prepareStep]. *)
Lemma prepareStep_presence_counterexample :
  refreshMessage empty_string_config = Some (MessageString "")
  /\ result_prepareStep (dynamicTools empty_string_config) = None
  /\ ~ (is_Some (result_prepareStep (dynamicTools empty_string_config))
        <-> is_Some (refreshMessage empty_string_config)).
Proof.
  split; [reflexivity|]. split; [reflexivity|].
  intros [_ H]. destruct H as [hook Hhook]; [by eexists|]. discriminate Hhook.
Qed.

(** C7 as stated: the replacement got [b] first and [1] second, and
    [onRefresh] is called with [1] first. *)
Lemma observer_called_once_counterexample :
  let replacement := [("b", 1); ("1", 2)] in
  refreshTools numbered_config 0 = (Returned (OtherObject replacement), 1)
  /\ (world (onStepFinish (spy_config numbered_config) load_skill
               (spied (initial numbered_config 0) [])).2).2
     = [CalledShouldRefresh load_skill; CalledRefreshTools;
        CalledOnRefresh ["1"; "b"]]
  /\ ["1"; "b"] <> replacement.*1.
Proof. repeat split; try reflexivity. discriminate. Qed.

(** * The further properties on the configurations of the tests *)

Import MoreExamples.

Lemma predicate_failure_witness :
  onStepFinish (spy_config failing_predicate_config) load_skill
    (spied (initial failing_predicate_config 0) [])
  = (Thrown "predicate failed",
     spied (initial failing_predicate_config 0)
           [CalledShouldRefresh load_skill]).
Proof.
  apply (predicate_failure failing_predicate_config load_skill
           (initial failing_predicate_config 0) [] "predicate failed" 0).
  reflexivity.
Defined.

Lemma initial_registry_copy_witness :
  JsObject.keys (tools (initial plain_config 0)) = ["old"]
  /\ JsObject.get "old" (tools (initial plain_config 0)) = Some 0.
Proof.
  destruct (initial_registry_copy plain_config 0) as (Hkeys & Hget & _).
  { by_evaluation. }
  split; [exact Hkeys | exact (Hget "old")].
Defined.

Lemma template_failure_witness :
  onStepFinish failing_template_config load_skill
    (initial failing_template_config 0)
  = (Thrown "template failed",
     {| tools := replaced alpha_beta_gamma;
        pendingRefreshMessage := None;
        world := 1 |}).
Proof.
  apply (template_failure failing_template_config load_skill
           (initial failing_template_config 0) [] 0 alpha_beta_gamma 1 1
           (fun _ w => (Thrown "template failed", w)) "template failed" 1);
    reflexivity.
Defined.

Lemma refresh_completes_witness :
  onStepFinish (spy_config observed_config) load_skill
    (spied (initial observed_config 0) [])
  = (Returned tt,
     spied {| tools := replaced alpha_beta_gamma;
              pendingRefreshMessage :=
                Some "Tools refreshed. Now available: alpha, beta, gamma";
              world := 1 |}
           [CalledShouldRefresh load_skill; CalledRefreshTools;
            CalledOnRefresh ["alpha"; "beta"; "gamma"];
            CalledRefreshMessage ["alpha"; "beta"; "gamma"]]).
Proof.
  apply (refresh_completes observed_config load_skill
           (initial observed_config 0) [] 0 alpha_beta_gamma 1 1
           "Tools refreshed. Now available: alpha, beta, gamma" 1
           (Some "Tools refreshed. Now available: alpha, beta, gamma"));
    try reflexivity.
  split; reflexivity.
Defined.

(** One refresh in the loop, one override. *)
Lemma notifications_bounded_by_refreshes_witness :
  let out := run (spy_config observed_config) two_steps
               (spied (initial observed_config 0) []) in
  overrides out.1 = 1
  /\ exists new, (world out.2).2 = [] ++ new
                 /\ overrides out.1 <= refreshTools_calls new.
Proof.
  intros out. split; [reflexivity|].
  apply (notifications_bounded_by_refreshes observed_config two_steps
           (initial observed_config 0) []).
  reflexivity.
Defined.

Lemma no_refresh_no_change_witness :
  let out := run observed_config quiet_steps (initial observed_config 0) in
  Forall (fun o => o = None) out.1
  /\ tools out.2 = tools (initial observed_config 0)
  /\ pendingRefreshMessage out.2 = None.
Proof.
  apply (no_refresh_no_change observed_config quiet_steps
           (initial observed_config 0)).
  - reflexivity.
  - intros step w Hin.
    assert (Hstep : step = other_step).
    { unfold quiet_steps in Hin.
      repeat (apply elem_of_cons in Hin as [Hin|Hin];
              [by (discriminate Hin || injection Hin as ->)|]).
      by apply elem_of_nil in Hin. }
    subst step. reflexivity.
Defined.

(** * Where the code misses the claims *)

(** C1 (total replacement), at a replacement with an own property
    [__proto__].  The refresh completes; the replacement has the names
    [__proto__] and [a]; the registry is left with [a] alone, so its
    names are not those of the replacement.  Line 59 assigns, and the
    assignment of [__proto__] runs the inherited setter; line 47
    defines, and the same object given as [config.tools] is copied with
    both names. *)
Theorem total_replacement_misses_proto :
  let st' := (onStepFinish proto_config load_skill (initial proto_config 0)).2 in
  shouldRefresh proto_config load_skill 0 = (Returned true, 0)
  /\ refreshTools proto_config 0 = (Returned (OtherObject proto_and_a), 1)
  /\ JsObject.wf proto_and_a
  /\ JsObject.keys proto_and_a = ["__proto__"; "a"]
  /\ onStepFinish proto_config load_skill (initial proto_config 0)
     = (Returned tt, st')
  /\ tools st' = [("a", 2)]
  /\ JsObject.keys (tools st') <> JsObject.keys proto_and_a
  /\ JsObject.keys (tools (initial proto_initial_config 0))
     = ["__proto__"; "a"].
Proof.
  intros st'. repeat split; try reflexivity.
  - by_evaluation.
  - discriminate.
Qed.

(** C6 (observer failure), at a replacement with an own property
    [__proto__].  [onRefresh] throws and the error propagates with
    nothing armed, but the registry then holds [a] alone, not the names
    [__proto__] and [a] of the replacement, and [a] alone is what
    [onRefresh] was called with. *)
Theorem observer_failure_misses_proto :
  let config := proto_failing_observer_config in
  refreshTools config 0 = (Returned (OtherObject proto_and_a), 1)
  /\ JsObject.keys proto_and_a = ["__proto__"; "a"]
  /\ onStepFinish (spy_config config) load_skill (spied (initial config 0) [])
     = (Thrown "observer failed",
        spied {| tools := [("a", 2)];
                 pendingRefreshMessage := None;
                 world := 1 |}
              [CalledShouldRefresh load_skill; CalledRefreshTools;
               CalledOnRefresh ["a"]])
  /\ JsObject.keys [("a", 2)] <> JsObject.keys proto_and_a.
Proof. repeat split; try reflexivity. discriminate. Qed.
